(** * A shallow embedding of the synthetic marketing star-schema generator

    Sources embedded here:
    - [scripts/synth_data_gen.py]   ([generate_marketing_star_schema])
    - [scripts/data_enrichment.py]  (the four KPI columns)

    Modelling conventions.
    - A pandas frame is a list of rows (for the joined skeleton) or a record
      of columns (for the numpy arrays the generator works on); "row [i]" of
      the fact table is the tuple of the [i]-th entries of its columns.
    - [float64] values are modelled by exact rationals [Q]; [astype(int)] is
      truncation toward zero and [round(2)] is round-half-even on hundredths.
    - [np.random] is a global generator: it is modelled as explicit state, a
      stream of unit-interval samples, threaded through a state-and-error
      monad.  Theorems quantify over every such stream.
    - Dates follow the proleptic Gregorian ordinal arithmetic of the Python
      [datetime] module. *)

From Stdlib Require Import ZArith QArith Qround Bool String Ascii List Lia Lqa.
Import ListNotations.

Local Open Scope Z_scope.

(** ** Calendar arithmetic ([datetime], [timedelta], the [.dt] accessors) *)

Module Calendar.

Record datetime := mkDate { year : Z; month : Z; day : Z }.

Definition is_leap (y : Z) : bool :=
  (y mod 4 =? 0) && (negb (y mod 100 =? 0) || (y mod 400 =? 0)).

Definition days_before_year (y : Z) : Z :=
  let y1 := y - 1 in y1 * 365 + y1 / 4 - y1 / 100 + y1 / 400.

Definition DAYS_IN_MONTH : list Z :=
  [-1; 31; 28; 31; 30; 31; 30; 31; 31; 30; 31; 30; 31].

Definition DAYS_BEFORE_MONTH : list Z :=
  [-1; 0; 31; 59; 90; 120; 151; 181; 212; 243; 273; 304; 334].

Definition tbl (t : list Z) (m : Z) : Z := nth (Z.to_nat m) t 0.

Definition days_in_month (y m : Z) : Z :=
  if (m =? 2) && is_leap y then 29 else tbl DAYS_IN_MONTH m.

Definition days_before_month (y m : Z) : Z :=
  tbl DAYS_BEFORE_MONTH m + (if (2 <? m) && is_leap y then 1 else 0).

Definition ymd2ord (d : datetime) : Z :=
  days_before_year (year d) + days_before_month (year d) (month d) + day d.

Definition DI400Y : Z := days_before_year 401.
Definition DI100Y : Z := days_before_year 101.
Definition DI4Y : Z := days_before_year 5.

Definition ord2ymd (n0 : Z) : datetime :=
  let n := n0 - 1 in
  let n400 := n / DI400Y in
  let n := n mod DI400Y in
  let y := n400 * 400 + 1 in
  let n100 := n / DI100Y in
  let n := n mod DI100Y in
  let n4 := n / DI4Y in
  let n := n mod DI4Y in
  let n1 := n / 365 in
  let n := n mod 365 in
  let y := y + n100 * 100 + n4 * 4 + n1 in
  if (n1 =? 4) || (n100 =? 4) then mkDate (y - 1) 12 31
  else
    let leapyear := (n1 =? 3) && (negb (n4 =? 24) || (n100 =? 3)) in
    let m := Z.shiftr (n + 50) 5 in
    let preceding :=
      tbl DAYS_BEFORE_MONTH m + (if (2 <? m) && leapyear then 1 else 0) in
    if n <? preceding then
      let m' := m - 1 in
      let preceding' :=
        preceding
        - (tbl DAYS_IN_MONTH m' + (if (m' =? 2) && leapyear then 1 else 0)) in
      mkDate y m' (n - preceding' + 1)
    else mkDate y m (n - preceding + 1).

(** [d + timedelta(days=x)] *)
Definition add_days (d : datetime) (x : Z) : datetime :=
  ord2ymd (ymd2ord d + x).

(** [.dt.dayofweek]: Monday is 0, Sunday is 6. *)
Definition dayofweek (d : datetime) : Z := (ymd2ord d + 6) mod 7.

(** [.dt.quarter] *)
Definition quarter (d : datetime) : Z := (month d - 1) / 3 + 1.

Definition month_abbr : list string :=
  [EmptyString; "Jan"; "Feb"; "Mar"; "Apr"; "May"; "Jun";
   "Jul"; "Aug"; "Sep"; "Oct"; "Nov"; "Dec"]%string.

(** [strftime('%b')] *)
Definition strftime_b (d : datetime) : string :=
  nth (Z.to_nat (month d)) month_abbr EmptyString.

Definition digit (n : Z) : ascii := ascii_of_nat (48 + Z.to_nat (n mod 10)).

(** The [w] low-order decimal digits of [n], most significant first
    (zero padded, as [%Y], [%m] and [%d] print them). *)
Fixpoint zero_pad (w : nat) (n : Z) (acc : string) : string :=
  match w with
  | O => acc
  | S w' => zero_pad w' (n / 10) (String (digit n) acc)
  end.

(** [strftime('%Y%m%d')] *)
Definition strftime_Ymd (d : datetime) : string :=
  zero_pad 4 (year d) (zero_pad 2 (month d) (zero_pad 2 (day d) EmptyString)).

Fixpoint int_of_digits (s : string) (acc : Z) : Z :=
  match s with
  | EmptyString => acc
  | String c s' => int_of_digits s' (10 * acc + (Z.of_nat (nat_of_ascii c) - 48))
  end.

(** [.astype(int)] on a column of digit strings *)
Definition astype_int (s : string) : Z := int_of_digits s 0.

(** Reference calendar, independent of ordinals: the day after a date, and
    the weekday by Sakamoto's table method (0 is Sunday, 6 is Saturday). *)
Definition next_day (d : datetime) : datetime :=
  if day d <? days_in_month (year d) (month d)
  then mkDate (year d) (month d) (day d + 1)
  else if month d <? 12 then mkDate (year d) (month d + 1) 1
       else mkDate (year d + 1) 1 1.

Definition sakamoto_tbl : list Z := [0; 0; 3; 2; 5; 0; 3; 5; 1; 4; 6; 2; 4].

Definition weekday_sun0 (d : datetime) : Z :=
  let y := if month d <? 3 then year d - 1 else year d in
  (y + y / 4 - y / 100 + y / 400 + tbl sakamoto_tbl (month d) + day d) mod 7.

Definition is_sat_or_sun (d : datetime) : bool :=
  (weekday_sun0 d =? 6) || (weekday_sun0 d =? 0).

Definition datetime_eqb (a b : datetime) : bool :=
  (year a =? year b) && (month a =? month b) && (day a =? day b).

End Calendar.

(** ** Dimension tables *)

Record DimDate := mkDimDate {
  dd_date : Calendar.datetime;
  dd_date_key : Z;
  dd_year : Z;
  dd_month : Z;
  dd_month_name : string;
  dd_quarter : Z;
  dd_is_weekend : bool
}.

Definition start_date : Calendar.datetime := Calendar.mkDate 2023 1 1.

(** [range(n)] *)
Definition range (n : nat) : list Z := map Z.of_nat (seq 0 n).

Definition dates : list Calendar.datetime :=
  map (fun x => Calendar.add_days start_date x) (range 456).

Definition dim_date_row (d : Calendar.datetime) : DimDate :=
  {| dd_date := d;
     dd_date_key := Calendar.astype_int (Calendar.strftime_Ymd d);
     dd_year := Calendar.year d;
     dd_month := Calendar.month d;
     dd_month_name := Calendar.strftime_b d;
     dd_quarter := Calendar.quarter d;
     dd_is_weekend := 5 <=? Calendar.dayofweek d |}.

Definition dim_date : list DimDate := map dim_date_row dates.

Record DimSource := mkDimSource {
  source_id : Z;
  source_name : string;
  channel : string
}.

Definition sources_data : list (Z * string * string) :=
  [ (1, "Amazon Ad Server", "Programmatic");
    (2, "StackAdapt", "Programmatic");
    (3, "DV360", "Programmatic");
    (4, "Search Ads 360", "Paid Search");
    (5, "Bing Ads", "Paid Search");
    (6, "Facebook", "Paid Social");
    (7, "LinkedIn Ads", "Paid Social");
    (8, "Organic Search", "Organic") ]%string.

Definition dim_source : list DimSource :=
  map (fun '(i, n, c) => mkDimSource i n c) sources_data.

Record DimCampaign := mkDimCampaign {
  campaign_id : Z;
  campaign_name : string;
  ad_set_name : string;
  channel_scope : string;
  objective : string
}.

Definition campaign_config : list (string * string * string) :=
  [ ("Business-focused zero tolerance", "Programmatic", "Brand Awareness");
    ("Profound intangible policy", "Programmatic", "Brand Awareness");
    ("Networked value-added time-frame", "Programmatic", "Consideration");
    ("Persistent 24/7 attitude", "Paid Social", "Lead Gen");
    ("Centralized modular throughput", "Paid Social", "Conversion");
    ("Integrated dedicated contingency", "Paid Search", "Conversion");
    ("Automated uniform software", "Paid Search", "Lead Gen");
    ("Cross-platform static hierarchy", "Organic", "Traffic") ]%string.

Definition tiers : list string := ["_Tier1"; "_Tier2"]%string.

(** The two nested loops that fill [campaign_rows]; the state carried through
    them is the list built so far and [id_counter]. *)
Definition tier_loop (name scope obj : string)
    (st : list DimCampaign * Z) : list DimCampaign * Z :=
  fold_left
    (fun '(rows, id_counter) tier =>
       (rows ++ [mkDimCampaign id_counter name (name ++ tier) scope obj],
        id_counter + 1))
    tiers st.

Definition campaign_rows : list DimCampaign :=
  fst (fold_left (fun st '(name, scope, obj) => tier_loop name scope obj st)
                 campaign_config ([], 1)).

Definition dim_campaign : list DimCampaign := campaign_rows.

(** ** The fact skeleton: logical join, then cross join with the dates *)

(** A row of [schema_link]: the columns of both sides of the inner merge. *)
Record Link := mkLink {
  lk_campaign : DimCampaign;
  lk_source : DimSource
}.

(** [left.merge(right, left_on=.., right_on=..)], an inner equi-join: every
    pair of a left and a right row whose keys are equal, and nothing else. *)
Definition merge_on {A B C} (kl : A -> string) (kr : B -> string)
    (mk : A -> B -> C) (left : list A) (right : list B) : list C :=
  flat_map
    (fun a => map (mk a) (filter (fun b => String.eqb (kl a) (kr b)) right))
    left.

(** [left.merge(right, how='cross')] *)
Definition merge_cross {A B C} (mk : A -> B -> C)
    (left : list A) (right : list B) : list C :=
  flat_map (fun a => map (mk a) right) left.

Definition schema_link : list Link :=
  merge_on channel_scope channel mkLink dim_campaign dim_source.

(** The projection [dim_date[['date_key', 'is_weekend', 'year', 'month']]]. *)
Record DateCols := mkDateCols {
  dc_date_key : Z;
  dc_is_weekend : bool;
  dc_year : Z;
  dc_month : Z
}.

Definition date_cols (d : DimDate) : DateCols :=
  mkDateCols (dd_date_key d) (dd_is_weekend d) (dd_year d) (dd_month d).

(** A row of [df_fact] before any metric column is added. *)
Record Skel := mkSkel {
  sk_link : Link;
  sk_date : DateCols
}.

Definition sk_channel (r : Skel) : string := channel (lk_source (sk_link r)).
Definition sk_source_id (r : Skel) : Z := source_id (lk_source (sk_link r)).
Definition sk_campaign_id (r : Skel) : Z :=
  campaign_id (lk_campaign (sk_link r)).
Definition sk_date_key (r : Skel) : Z := dc_date_key (sk_date r).
Definition sk_is_weekend (r : Skel) : bool := dc_is_weekend (sk_date r).
Definition sk_year (r : Skel) : Z := dc_year (sk_date r).
Definition sk_month (r : Skel) : Z := dc_month (sk_date r).

Definition df_skeleton : list Skel :=
  merge_cross mkSkel schema_link (map date_cols dim_date).

(** ** Numeric columns *)

Local Open Scope Q_scope.

(** [astype(int)] on a float: truncation toward zero. *)
Definition trunc (x : Q) : Z := Z.quot (Qnum x) (Z.pos (Qden x)).

(** [np.rint]: nearest integer, ties to the even one. *)
Definition rint (x : Q) : Z :=
  let f := Qfloor x in
  match Qcompare (x - inject_Z f) (1 # 2) with
  | Lt => f
  | Gt => (f + 1)%Z
  | Eq => if Z.even f then f else (f + 1)%Z
  end.

(** [.round(2)]: scale by 100, round to the nearest integer, scale back. *)
Definition round2 (x : Q) : Q := inject_Z (rint (x * 100)) / 100.

(** [np.zeros(n)] *)
Definition zeros (n : nat) : list Q := repeat 0 n.

(** [np.where(cond, a, b)] with scalar branches. *)
Definition np_where (cond : list bool) (a b : Q) : list Q :=
  map (fun c : bool => if c then a else b) cond.

(** Element-wise binary operation on two arrays. *)
Fixpoint map2 {A B C} (f : A -> B -> C) (l1 : list A) (l2 : list B) : list C :=
  match l1, l2 with
  | a :: l1', b :: l2' => f a b :: map2 f l1' l2'
  | _, _ => []
  end.

(** [mask.sum()] *)
Fixpoint mask_sum (mask : list bool) : nat :=
  match mask with
  | [] => O
  | true :: m => S (mask_sum m)
  | false :: m => mask_sum m
  end.

(** [arr[mask]]: boolean selection. *)
Fixpoint mask_select {A} (arr : list A) (mask : list bool) : list A :=
  match arr, mask with
  | a :: arr', true :: m => a :: mask_select arr' m
  | _ :: arr', false :: m => mask_select arr' m
  | _, _ => []
  end.

(** [arr[mask] = vals]: the values go, in order, to the positions where the
    mask is true.  numpy raises when the mask and the array differ in length
    or when the number of values is not the number of true positions; that is
    [None] here. *)
Fixpoint mask_assign {A} (arr : list A) (mask : list bool) (vals : list A)
  : option (list A) :=
  match arr, mask with
  | [], [] => match vals with [] => Some [] | _ :: _ => None end
  | a :: arr', true :: m =>
      match vals with
      | v :: vals' => option_map (cons v) (mask_assign arr' m vals')
      | [] => None
      end
  | a :: arr', false :: m => option_map (cons a) (mask_assign arr' m vals)
  | _, _ => None
  end.

(** [arr[mask] = c] for a scalar [c], broadcast over the selected positions. *)
Definition mask_fill {A} (arr : list A) (mask : list bool) (c : A)
  : option (list A) :=
  mask_assign arr mask (repeat c (mask_sum mask)).

(** [arr[mask] *= c]: select, scale, assign back. *)
Definition mask_imul (arr : list Q) (mask : list bool) (c : Q)
  : option (list Q) :=
  mask_assign arr mask (map (fun x => x * c) (mask_select arr mask)).

(** ** The random generator: a state-and-error monad

    The state is a stream of unit-interval samples and a cursor into it.
    [uniform] scales a sample affinely, as numpy does; [randint] maps a sample
    to one of the [high - low] integers from [low] (numpy's own integer
    sampler is different, its set of possible results is the same). *)

Record Rng := mkRng { samples : N -> Q; cursor : N }.

Definition M (A : Type) : Type := Rng -> option (A * Rng).

Definition ret {A} (a : A) : M A := fun g => Some (a, g).

Definition bind {A B} (m : M A) (k : A -> M B) : M B :=
  fun g => match m g with
           | Some (a, g') => k a g'
           | None => None
           end.

(** Lift a computation that may raise. *)
Definition try {A} (o : option A) : M A :=
  fun g => match o with Some a => Some (a, g) | None => None end.

Notation "x <- m ;; k" := (bind m (fun x => k))
  (at level 61, m at next level, right associativity).

Fixpoint take_samples (s : N -> Q) (pos : N) (size : nat) : list Q :=
  match size with
  | O => []
  | S n => s pos :: take_samples s (N.succ pos) n
  end.

Definition random_sample (size : nat) : M (list Q) :=
  fun g => Some (take_samples (samples g) (cursor g) size,
                  mkRng (samples g) (cursor g + N.of_nat size)).

(** [np.random.uniform(low, high, size)] *)
Definition uniform_of (low high u : Q) : Q := low + (high - low) * u.

Definition uniform (low high : Q) (size : nat) : M (list Q) :=
  us <- random_sample size ;;
  ret (map (uniform_of low high) us).

(** [np.random.randint(low, high, size)], [high] excluded. *)
Definition randint_of (low high : Z) (u : Q) : Z :=
  (low + Qfloor (inject_Z (high - low) * u))%Z.

Definition randint (low high : Z) (size : nat) : M (list Z) :=
  us <- random_sample size ;;
  ret (map (randint_of low high) us).

(** Storing integers into a [float64] array. *)
Definition as_float (l : list Z) : list Q := map inject_Z l.

(** ** Step C of the generator: the metric columns *)

Definition is_channel (c : string) (r : Skel) : bool :=
  String.eqb (sk_channel r) c.

(** [df_fact['channel'].isin(cs)] *)
Definition channel_isin (cs : list string) (r : Skel) : bool :=
  existsb (String.eqb (sk_channel r)) cs.

Definition is_spike (r : Skel) : bool :=
  (sk_year r =? 2023)%Z && (sk_month r =? 8)%Z && is_channel "Programmatic" r.

Definition is_effic (r : Skel) : bool :=
  (sk_year r =? 2023)%Z && (sk_month r =? 12)%Z && is_channel "Paid Search" r.

(** What the generator holds when it reaches the export: the numpy arrays and
    the metric columns of [df_fact].  The two arrays that are updated in place
    by the insights are also recorded as they were just before. *)
Record Metrics := mkMetrics {
  seasonality : list Q;
  base_imps : list Q;
  ctrs : list Q;
  cpcs_drawn : list Q;        (* [cpcs] before insight 2 *)
  seasonal_imps : list Q;     (* [final_imps] before insight 1 *)
  final_imps : list Q;
  cpcs : list Q;
  conv_rates : list Q;
  impressions : list Z;
  clicks : list Z;
  spend : list Q;
  conversions : list Z;
  video_views : list Z
}.

Definition metric_logic (df_fact : list Skel) : M Metrics :=
  let N := length df_fact in
  let seasonality := np_where (map sk_is_weekend df_fact) 0.7 1.1 in
  let base_imps := zeros N in
  let ctrs := zeros N in
  let cpcs := zeros N in
  (* Programmatic *)
  let mask_prog := map (is_channel "Programmatic") df_fact in
  let s_prog := mask_sum mask_prog in
  v <- randint 5000 15000 s_prog ;;
  base_imps <- try (mask_assign base_imps mask_prog (as_float v)) ;;
  v <- uniform 0.003 0.007 s_prog ;;
  ctrs <- try (mask_assign ctrs mask_prog v) ;;
  v <- uniform 0.30 0.90 s_prog ;;
  cpcs <- try (mask_assign cpcs mask_prog v) ;;
  (* Paid Search *)
  let mask_search := map (is_channel "Paid Search") df_fact in
  let s_search := mask_sum mask_search in
  v <- randint 300 1200 s_search ;;
  base_imps <- try (mask_assign base_imps mask_search (as_float v)) ;;
  v <- uniform 0.08 0.12 s_search ;;
  ctrs <- try (mask_assign ctrs mask_search v) ;;
  v <- uniform 2.50 6.00 s_search ;;
  cpcs <- try (mask_assign cpcs mask_search v) ;;
  (* Paid Social *)
  let mask_social := map (is_channel "Paid Social") df_fact in
  let s_social := mask_sum mask_social in
  v <- randint 1000 4000 s_social ;;
  base_imps <- try (mask_assign base_imps mask_social (as_float v)) ;;
  v <- uniform 0.015 0.035 s_social ;;
  ctrs <- try (mask_assign ctrs mask_social v) ;;
  v <- uniform 1.50 3.50 s_social ;;
  cpcs <- try (mask_assign cpcs mask_social v) ;;
  (* Organic *)
  let mask_org := map (is_channel "Organic") df_fact in
  let s_org := mask_sum mask_org in
  v <- randint 1000 3000 s_org ;;
  base_imps <- try (mask_assign base_imps mask_org (as_float v)) ;;
  v <- uniform 0.05 0.08 s_org ;;
  ctrs <- try (mask_assign ctrs mask_org v) ;;
  cpcs <- try (mask_fill cpcs mask_org 0.0) ;;
  (* insights *)
  let seasonal_imps := map2 Qmult base_imps seasonality in
  let mask_spike := map is_spike df_fact in
  final_imps <- try (mask_imul seasonal_imps mask_spike 3.0) ;;
  let mask_effic := map is_effic df_fact in
  cpcs_adj <- try (mask_imul cpcs mask_effic 0.7) ;;
  (* final calculations *)
  let impressions := map trunc final_imps in
  let clicks := map trunc (map2 Qmult (as_float impressions) ctrs) in
  let spend := map round2 (map2 Qmult (as_float clicks) cpcs_adj) in
  conv_rates <- uniform 0.05 0.15 N ;;
  let conversions := map trunc (map2 Qmult (as_float clicks) conv_rates) in
  let video_views := repeat 0%Z N in
  let mask_video := map (channel_isin ["Programmatic"; "Paid Social"]%string) df_fact in
  v <- uniform 0.8 1.2 (mask_sum mask_video) ;;
  video_views <-
    try (mask_assign video_views mask_video
           (map trunc
              (map2 Qmult
                 (map (fun i => inject_Z i * 0.40)
                      (mask_select impressions mask_video))
                 v))) ;;
  ret {| seasonality := seasonality;
         base_imps := base_imps;
         ctrs := ctrs;
         cpcs_drawn := cpcs;
         seasonal_imps := seasonal_imps;
         final_imps := final_imps;
         cpcs := cpcs_adj;
         conv_rates := conv_rates;
         impressions := impressions;
         clicks := clicks;
         spend := spend;
         conversions := conversions;
         video_views := video_views |}.

(** The exported fact table: keys and metrics only. *)
Record FactRow := mkFactRow {
  f_date_key : Z;
  f_source_id : Z;
  f_campaign_id : Z;
  f_impressions : Z;
  f_clicks : Z;
  f_spend : Q;
  f_conversions : Z;
  f_video_views : Z
}.

Fixpoint zip_fact (df_fact : list Skel) (imp clk : list Z) (spd : list Q)
    (cnv vid : list Z) : list FactRow :=
  match df_fact, imp, clk, spd, cnv, vid with
  | r :: df', a :: imp', b :: clk', c :: spd', d :: cnv', e :: vid' =>
      mkFactRow (sk_date_key r) (sk_source_id r) (sk_campaign_id r) a b c d e
      :: zip_fact df' imp' clk' spd' cnv' vid'
  | _, _, _, _, _, _ => []
  end.

(** [df_fact[fact_columns]] *)
Definition fact_final (df_fact : list Skel) (m : Metrics) : list FactRow :=
  zip_fact df_fact (impressions m) (clicks m) (spend m) (conversions m)
           (video_views m).

(** What [generate_marketing_star_schema] hands to the exporter. *)
Record StarSchema := mkStarSchema {
  out_dim_date : list DimDate;
  out_dim_source : list DimSource;
  out_dim_campaign : list DimCampaign;
  out_df_fact : list Skel;
  out_metrics : Metrics;
  out_fact : list FactRow
}.

Definition generate_marketing_star_schema : M StarSchema :=
  m <- metric_logic df_skeleton ;;
  ret (mkStarSchema dim_date dim_source dim_campaign df_skeleton m
                    (fact_final df_skeleton m)).

Definition rng0 : Rng := mkRng (fun _ => 0) 0.
Definition rng_half : Rng := mkRng (fun _ => 1 # 2) 0.


(** ** Row view of the generator's result

    Row [i] of [df_fact] together with the [i]-th entry of every array. *)

Record Row := mkRow {
  r_skel : Skel;
  r_seasonality : Q;
  r_base_imps : Q;
  r_ctr : Q;
  r_cpc_drawn : Q;
  r_seasonal_imps : Q;
  r_final_imps : Q;
  r_cpc : Q;
  r_conv_rate : Q;
  r_impressions : Z;
  r_clicks : Z;
  r_spend : Q;
  r_conversions : Z;
  r_video_views : Z
}.

Definition no_skel : Skel :=
  let e := EmptyString in
  mkSkel (mkLink (mkDimCampaign 0 e e e e) (mkDimSource 0 e e))
         (mkDateCols 0 false 0 0).

Definition row_at (df_fact : list Skel) (m : Metrics) (i : nat) : Row :=
  {| r_skel := nth i df_fact no_skel;
     r_seasonality := nth i (seasonality m) 0;
     r_base_imps := nth i (base_imps m) 0;
     r_ctr := nth i (ctrs m) 0;
     r_cpc_drawn := nth i (cpcs_drawn m) 0;
     r_seasonal_imps := nth i (seasonal_imps m) 0;
     r_final_imps := nth i (final_imps m) 0;
     r_cpc := nth i (cpcs m) 0;
     r_conv_rate := nth i (conv_rates m) 0;
     r_impressions := nth i (impressions m) 0%Z;
     r_clicks := nth i (clicks m) 0%Z;
     r_spend := nth i (spend m) 0;
     r_conversions := nth i (conversions m) 0%Z;
     r_video_views := nth i (video_views m) 0%Z |}.

Definition rows_of (df_fact : list Skel) (m : Metrics) : list Row :=
  map (row_at df_fact m) (seq 0 (length df_fact)).

Definition rows (out : StarSchema) : list Row :=
  rows_of (out_df_fact out) (out_metrics out).

Definition r_channel (r : Row) : string := sk_channel (r_skel r).

(** The exported columns of a row. *)
Definition fact_of_row (r : Row) : FactRow :=
  mkFactRow (sk_date_key (r_skel r)) (sk_source_id (r_skel r))
            (sk_campaign_id (r_skel r)) (r_impressions r) (r_clicks r)
            (r_spend r) (r_conversions r) (r_video_views r).

(** Every array has one entry per row of [df_fact]. *)
Definition full_columns (n : nat) (m : Metrics) : Prop :=
  length (seasonality m) = n /\ length (base_imps m) = n /\
  length (ctrs m) = n /\ length (cpcs_drawn m) = n /\
  length (seasonal_imps m) = n /\ length (final_imps m) = n /\
  length (cpcs m) = n /\ length (conv_rates m) = n /\
  length (impressions m) = n /\ length (clicks m) = n /\
  length (spend m) = n /\ length (conversions m) = n /\
  length (video_views m) = n.

(** ** Lookups in the dimension tables *)

Definition find_campaign (id : Z) : option DimCampaign :=
  find (fun c => (campaign_id c =? id)%Z) dim_campaign.

Definition find_source (id : Z) : option DimSource :=
  find (fun s => (source_id s =? id)%Z) dim_source.

Definition find_date (key : Z) : option DimDate :=
  find (fun d => (dd_date_key d =? key)%Z) dim_date.

(** The campaign/source pairs that share a channel, counted independently of
    the merge: filter the full Cartesian product. *)
Definition pairs_sharing_channel : list (DimCampaign * DimSource) :=
  filter (fun p => String.eqb (channel_scope (fst p)) (channel (snd p)))
         (list_prod dim_campaign dim_source).

(** ** Weakest preconditions for the generator monad *)

Definition samples_in (U : Q -> Prop) (g : Rng) : Prop :=
  forall k, U (samples g k).

Definition unit_interval (u : Q) : Prop := 0 <= u /\ u < 1.

Definition any_sample (u : Q) : Prop := True.

Definition unit_samples (g : Rng) : Prop := samples_in unit_interval g.

Definition wp {A} (m : M A) (post : A -> Rng -> Prop) (g : Rng) : Prop :=
  exists a g', m g = Some (a, g') /\ post a g'.

(** The generator returns, and its result satisfies [P]. *)
Definition generates (g : Rng) (P : StarSchema -> Prop) : Prop :=
  wp generate_marketing_star_schema (fun out _ => P out) g.

Definition unif_draw (U : Q -> Prop) (low high x : Q) : Prop :=
  exists u, U u /\ x = uniform_of low high u.

Definition int_draw (U : Q -> Prop) (low high : Z) (x : Q) : Prop :=
  exists u, U u /\ x = inject_Z (randint_of low high u).

(** What an array filled channel by channel holds in the row of [r]. *)
Definition by_channel (Pprog Psearch Psocial Porg : Q -> Prop)
    (r : Skel) (x : Q) : Prop :=
  if is_channel "Organic" r then Porg x
  else if is_channel "Paid Social" r then Psocial x
  else if is_channel "Paid Search" r then Psearch x
  else if is_channel "Programmatic" r then Pprog x
  else x = 0.

Definition base_imps_spec (U : Q -> Prop) : Skel -> Q -> Prop :=
  by_channel (int_draw U 5000 15000) (int_draw U 300 1200)
             (int_draw U 1000 4000) (int_draw U 1000 3000).

Definition ctrs_spec (U : Q -> Prop) : Skel -> Q -> Prop :=
  by_channel (unif_draw U 0.003 0.007) (unif_draw U 0.08 0.12)
             (unif_draw U 0.015 0.035) (unif_draw U 0.05 0.08).

Definition cpcs_spec (U : Q -> Prop) : Skel -> Q -> Prop :=
  by_channel (unif_draw U 0.30 0.90) (unif_draw U 2.50 6.00)
             (unif_draw U 1.50 3.50) (fun x => x = 0.0).

Definition video_spec (U : Q -> Prop) (r : Skel) (imp : Z) (v : Z) : Prop :=
  if channel_isin ["Programmatic"; "Paid Social"]%string r
  then exists u, U u /\
         v = trunc (inject_Z imp * 0.40 * uniform_of 0.8 1.2 u)
  else v = 0%Z.

(** The row-by-row reading of the vectorised Step C. *)
Record row_spec (U : Q -> Prop) (r : Row) : Prop := {
  rs_seasonality :
    r_seasonality r = if sk_is_weekend (r_skel r) then 0.7 else 1.1;
  rs_base : base_imps_spec U (r_skel r) (r_base_imps r);
  rs_ctr : ctrs_spec U (r_skel r) (r_ctr r);
  rs_cpc_drawn : cpcs_spec U (r_skel r) (r_cpc_drawn r);
  rs_seasonal : r_seasonal_imps r = r_base_imps r * r_seasonality r;
  rs_final :
    r_final_imps r =
    if is_spike (r_skel r) then r_seasonal_imps r * 3.0 else r_seasonal_imps r;
  rs_cpc :
    r_cpc r = if is_effic (r_skel r) then r_cpc_drawn r * 0.7 else r_cpc_drawn r;
  rs_impressions : r_impressions r = trunc (r_final_imps r);
  rs_clicks : r_clicks r = trunc (inject_Z (r_impressions r) * r_ctr r);
  rs_spend : r_spend r = round2 (inject_Z (r_clicks r) * r_cpc r);
  rs_conv_rate : unif_draw U 0.05 0.15 (r_conv_rate r);
  rs_conversions :
    r_conversions r = trunc (inject_Z (r_clicks r) * r_conv_rate r);
  rs_video : video_spec U (r_skel r) (r_impressions r) (r_video_views r)
}.

(** ** The enrichment stage ([data_enrichment.py]) *)

Module Enrichment.

(** A [float64] result: a number, an infinity or NaN.  Dividing by zero
    does not raise in numpy, it yields an infinity or NaN. *)
Inductive fval := Num (q : Q) | PInf | NInf | NaN.

Definition fdiv (a b : Q) : fval :=
  if Qeq_bool b 0 then
    match Qcompare a 0 with Eq => NaN | Gt => PInf | Lt => NInf end
  else Num (a / b).

Definition fmul (x : fval) (c : Q) : fval :=
  match x with
  | Num q => Num (q * c)
  | NaN => NaN
  | PInf => match Qcompare c 0 with Eq => NaN | Gt => PInf | Lt => NInf end
  | NInf => match Qcompare c 0 with Eq => NaN | Gt => NInf | Lt => PInf end
  end.

(** [left.merge(right, on=key, how='left')]: every left row is kept, with
    each matching right row, or with missing values when there is none. *)
Definition merge_left {A B} (kl : A -> Z) (kr : B -> Z)
    (left : list A) (right : list B) : list (A * option B) :=
  flat_map
    (fun a =>
       match filter (fun b => (kl a =? kr b)%Z) right with
       | [] => [(a, None)]
       | bs => map (fun b => (a, Some b)) bs
       end)
    left.

Section Frame.
(** The dimension files as read back; only their key columns matter. *)
Context {C S D : Type}.
Variable c_id : C -> Z.
Variable s_id : S -> Z.
Variable d_key : D -> Z.

Definition MasterRow : Type :=
  ((FactRow * option C) * option S) * option D.

Definition m_fact (r : MasterRow) : FactRow := fst (fst (fst r)).

Definition df_master (fact_performance : list FactRow)
    (dim_campaign : list C) (dim_source : list S) (dim_date : list D)
  : list MasterRow :=
  let df := merge_left f_campaign_id c_id fact_performance dim_campaign in
  let df := merge_left (fun r => f_source_id (fst r)) s_id df dim_source in
  merge_left (fun r => f_date_key (fst (fst r))) d_key df dim_date.

(** Column accessors. *)
Definition col_impressions (df : list MasterRow) : list Z :=
  map (fun r => f_impressions (m_fact r)) df.
Definition col_clicks (df : list MasterRow) : list Z :=
  map (fun r => f_clicks (m_fact r)) df.
Definition col_spend (df : list MasterRow) : list Q :=
  map (fun r => f_spend (m_fact r)) df.
Definition col_conversions (df : list MasterRow) : list Z :=
  map (fun r => f_conversions (m_fact r)) df.

(** [col > 0] *)
Definition gt0 (col : list Z) : list bool := map (fun x => (0 <? x)%Z) col.

(** [a / b] on columns *)
Definition div_cols (a b : list Q) : list fval := map2 fdiv a b.

(** [col * c] *)
Definition scale (col : list fval) (c : Q) : list fval :=
  map (fun x => fmul x c) col.

(** [np.where(cond, col, 0)]: both branches are already evaluated. *)
Definition where_or_0 (cond : list bool) (col : list fval) : list fval :=
  map2 (fun (c : bool) x => if c then x else Num 0) cond col.

Definition CPM (df : list MasterRow) : list fval :=
  where_or_0 (gt0 (col_impressions df))
    (scale (div_cols (col_spend df) (as_float (col_impressions df))) 1000).

Definition CTR (df : list MasterRow) : list fval :=
  where_or_0 (gt0 (col_impressions df))
    (scale (div_cols (as_float (col_clicks df))
                     (as_float (col_impressions df))) 100).

Definition CPC (df : list MasterRow) : list fval :=
  where_or_0 (gt0 (col_clicks df))
    (div_cols (col_spend df) (as_float (col_clicks df))).

Definition Conversion_Rate (df : list MasterRow) : list fval :=
  where_or_0 (gt0 (col_clicks df))
    (scale (div_cols (as_float (col_conversions df))
                     (as_float (col_clicks df))) 100).

(** The claimed value of each KPI for one row. *)
Definition guarded (den : Z) (v : Q) : fval :=
  if (0 <? den)%Z then Num v else Num 0.

Definition cpm_of (r : FactRow) : fval :=
  guarded (f_impressions r)
          (f_spend r / inject_Z (f_impressions r) * 1000).
Definition ctr_of (r : FactRow) : fval :=
  guarded (f_impressions r)
          (inject_Z (f_clicks r) / inject_Z (f_impressions r) * 100).
Definition cpc_of (r : FactRow) : fval :=
  guarded (f_clicks r) (f_spend r / inject_Z (f_clicks r)).
Definition conversion_rate_of (r : FactRow) : fval :=
  guarded (f_clicks r)
          (inject_Z (f_conversions r) / inject_Z (f_clicks r) * 100).


End Frame.

End Enrichment.

(** [n] consecutive calendar days starting at [d], by the reference
    calendar. *)
Fixpoint days_from (d : Calendar.datetime) (n : nat) : list Calendar.datetime :=
  match n with
  | O => []
  | S n' => d :: days_from (Calendar.next_day d) n'
  end.

(** ** The slices and notions the properties speak about *)

Definition august_spike_slice (r : Row) : Prop :=
  r_channel r = "Programmatic"%string /\
  sk_year (r_skel r) = 2023%Z /\ sk_month (r_skel r) = 8%Z.

Definition december_efficiency_slice (r : Row) : Prop :=
  r_channel r = "Paid Search"%string /\
  sk_year (r_skel r) = 2023%Z /\ sk_month (r_skel r) = 12%Z.

Definition video_slice (r : Row) : Prop :=
  r_channel r = "Programmatic"%string \/ r_channel r = "Paid Social"%string.



Definition rng_eighth : Rng := mkRng (fun _ => 1 # 8) 0.


(** A small master frame: one ordinary row, one without impressions, one
    with impressions and no clicks. *)
Definition sample_master : list (@Enrichment.MasterRow unit unit unit) :=
  map (fun f => (f, None, None, None))
      [ mkFactRow 20230101 1 1 4375 15 7.50 0 1487;
        mkFactRow 20230102 8 15 0 0 0 0 0;
        mkFactRow 20230103 4 11 10 0 0 0 0 ].

(** ** Channels and their distributions *)

Definition known_channel (c : string) : Prop :=
  c = "Programmatic"%string \/ c = "Paid Search"%string \/
  c = "Paid Social"%string \/ c = "Organic"%string.

(** The drawn parameters of a row lie in the given ranges: base impressions
    is an integer of [ilo, ihi), CTR lies in [clo, chi] and the drawn CPC in
    [plo, phi]. *)
Definition in_ranges (r : Row) (ilo ihi : Z) (clo chi plo phi : Q) : Prop :=
  (exists k : Z, r_base_imps r = inject_Z k /\ (ilo <= k < ihi)%Z) /\
  (clo <= r_ctr r /\ r_ctr r <= chi) /\
  (plo <= r_cpc_drawn r /\ r_cpc_drawn r <= phi).
(** ** Keys *)

(** The grain of the fact table. *)
Definition fact_key (f : FactRow) : Z * Z * Z :=
  (f_date_key f, f_source_id f, f_campaign_id f).

Definition link_key (k : Link) : Z * Z :=
  (campaign_id (lk_campaign k), source_id (lk_source k)).

Definition skel_key (s : Skel) : Z * Z * Z :=
  (link_key (sk_link s), dc_date_key (sk_date s)).

(** A decision procedure for the absence of duplicates in a list of
    integers. *)
Fixpoint nodupb (l : list Z) : bool :=
  match l with
  | [] => true
  | x :: t => negb (existsb (Z.eqb x) t) && nodupb t
  end.
(** ** The campaign loop, for any configuration *)

(** The loop of [campaign_rows] with the configuration as a parameter;
    [campaign_rows] is its value at [campaign_config]. *)
Definition campaign_rows_of (config : list (string * string * string))
  : list DimCampaign :=
  fst (fold_left (fun st '(name, scope, obj) => tier_loop name scope obj st)
                 config ([], 1%Z)).

(** Two ad sets per configured campaign, numbered from [id] on. *)
Fixpoint ad_sets_from (id : Z) (config : list (string * string * string))
  : list DimCampaign :=
  match config with
  | [] => []
  | (name, scope, obj) :: rest =>
      mkDimCampaign id name (name ++ "_Tier1") scope obj
      :: mkDimCampaign (id + 1) name (name ++ "_Tier2") scope obj
      :: ad_sets_from (id + 2) rest
  end.
(** ** Dates that [datetime] accepts *)

Definition valid_date (d : Calendar.datetime) : Prop :=
  (1 <= Calendar.year d <= 9999)%Z /\
  (1 <= Calendar.month d <= 12)%Z /\
  (1 <= Calendar.day d
   <= Calendar.days_in_month (Calendar.year d) (Calendar.month d))%Z.
(** ** The export and the files the enrichment stage reads back *)

(** A row of dim_campaign.csv: [dim_campaign.drop(columns=['channel_scope'])]. *)
Record DimCampaignFinal := mkDimCampaignFinal {
  cf_campaign_id : Z;
  cf_campaign_name : string;
  cf_ad_set_name : string;
  cf_objective : string
}.

Definition drop_channel_scope (c : DimCampaign) : DimCampaignFinal :=
  mkDimCampaignFinal (campaign_id c) (campaign_name c) (ad_set_name c)
                     (objective c).

(** The four tables written by the generator.  The enrichment stage reads
    them back; a table is taken to be read as it was written. *)
Record Exported := mkExported {
  csv_dim_date : list DimDate;
  csv_dim_source : list DimSource;
  csv_dim_campaign : list DimCampaignFinal;
  csv_fact_performance : list FactRow
}.

Definition export (out : StarSchema) : Exported :=
  mkExported (out_dim_date out) (out_dim_source out)
             (map drop_channel_scope (out_dim_campaign out))
             (out_fact out).

Definition master_of (e : Exported)
  : list (@Enrichment.MasterRow DimCampaignFinal DimSource DimDate) :=
  Enrichment.df_master cf_campaign_id source_id dd_date_key
    (csv_fact_performance e) (csv_dim_campaign e) (csv_dim_source e)
    (csv_dim_date e).

(** The row of a table found under a key, or a missing value. *)
Definition lookup {B} (kr : B -> Z) (right : list B) (k : Z) : option B :=
  find (fun b => (k =? kr b)%Z) right.

Definition small_left : list (Z * string) :=
  [(1%Z, "a"); (2%Z, "b"); (9%Z, "c"); (1%Z, "d")]%string.
Definition small_right : list (Z * string) :=
  [(2%Z, "two"); (1%Z, "one")]%string.
(** A KPI value that is a number within bounds. *)
Definition kpi_between (lo hi : Q) (x : Enrichment.fval) : Prop :=
  exists q, x = Enrichment.Num q /\ lo <= q /\ q <= hi.


(** A skeleton with one row of a channel that Step C does not know. *)
Definition email_skeleton : list Skel :=
  [ mkSkel (mkLink (mkDimCampaign 1%Z "Newsletter" "Newsletter_Tier1"
                                  "Email" "Traffic")
                   (mkDimSource 9%Z "Mailing list" "Email"))
           (mkDateCols 20230805%Z true 2023%Z 8%Z) ].

(* ================================================================== *)
(** * Properties *)

(** ** The date dimension *)

Lemma forallb_Forall {A} (p : A -> bool) (l : list A) :
  forallb p l = true -> Forall (fun x => p x = true) l.
Proof.
  intro H. apply Forall_forall. intros x Hx.
  rewrite forallb_forall in H. auto.
Qed.

Lemma dayofweek_range (d : Calendar.datetime) :
  (0 <= Calendar.dayofweek d < 7)%Z.
Proof. unfold Calendar.dayofweek. apply Z.mod_pos_bound. lia. Qed.

Lemma dim_date_dates : map dd_date dim_date = dates.
Proof.
  unfold dim_date. rewrite map_map.
  rewrite (map_ext _ (fun x => x)) by reflexivity. apply map_id.
Qed.

Lemma dim_date_keys :
  Forall (fun d =>
            dd_date_key d =
            (Calendar.year (dd_date d) * 10000
             + Calendar.month (dd_date d) * 100
             + Calendar.day (dd_date d))%Z)
         dim_date.
Proof.
  eapply Forall_impl;
    [ | apply (forallb_Forall
                 (fun d => (dd_date_key d =?
                            Calendar.year (dd_date d) * 10000
                            + Calendar.month (dd_date d) * 100
                            + Calendar.day (dd_date d))%Z)) ].
  - intros d H. apply Z.eqb_eq. exact H.
  - vm_compute. reflexivity.
Qed.

(** C5: from 2023-01-01 over 456 days, the date dimension has 456 rows on
    consecutive days, the last one is 2024-03-31, and [is_weekend] holds
    exactly on the Saturdays and Sundays. *)
Theorem C5_date_dimension :
  length dim_date = 456%nat /\
  map dd_date dim_date = days_from start_date 456 /\
  option_map dd_date (nth_error dim_date 455) =
    Some (Calendar.mkDate 2024 3 31) /\
  option_map dd_date_key (nth_error dim_date 455) = Some 20240331%Z /\
  Forall (fun d => dd_is_weekend d = Calendar.is_sat_or_sun (dd_date d))
         dim_date /\
  Forall (fun d => dd_is_weekend d = true <->
                   Calendar.dayofweek (dd_date d) = 5%Z \/
                   Calendar.dayofweek (dd_date d) = 6%Z)
         dim_date.
Proof.
  split; [ vm_compute; reflexivity | ].
  split; [ rewrite dim_date_dates; vm_compute; reflexivity | ].
  split; [ vm_compute; reflexivity | ].
  split; [ vm_compute; reflexivity | ].
  split.
  - eapply Forall_impl;
      [ | apply (forallb_Forall
                   (fun d => Bool.eqb (dd_is_weekend d)
                                      (Calendar.is_sat_or_sun (dd_date d)))) ].
    + intros d H. apply Bool.eqb_prop. exact H.
    + vm_compute. reflexivity.
  - apply Forall_forall. intros d Hd.
    unfold dim_date in Hd. apply in_map_iff in Hd.
    destruct Hd as [x [<- _]]. simpl.
    pose proof (dayofweek_range x) as R.
    rewrite Z.leb_le. lia.
Qed.

(** ** Arrays, masks and element-wise operations *)

Section Arrays.
Context {A B C : Type}.

Lemma map2_length (f : A -> B -> C) (l1 : list A) (l2 : list B) :
  length l1 = length l2 -> length (map2 f l1 l2) = length l1.
Proof.
  revert l2. induction l1 as [|a l1 IH]; intros [|b l2] H; simpl in *;
    try discriminate; auto.
Qed.

Lemma nth_map2 (f : A -> B -> C) (l1 : list A) (l2 : list B) i d d1 d2 :
  (i < length l1)%nat -> length l1 = length l2 ->
  nth i (map2 f l1 l2) d = f (nth i l1 d1) (nth i l2 d2).
Proof.
  revert l2 i. induction l1 as [|a l1 IH]; intros [|b l2] i Hi H;
    simpl in *; try discriminate; try lia.
  destruct i as [|i]; [reflexivity | apply IH; lia].
Qed.

Lemma Forall2_nth (R : A -> B -> Prop) (l1 : list A) (l2 : list B) i d1 d2 :
  Forall2 R l1 l2 -> (i < length l1)%nat -> R (nth i l1 d1) (nth i l2 d2).
Proof.
  intro H. revert i. induction H as [|a b l1 l2 Hab _ IH]; intros i Hi;
    simpl in *; [lia | ].
  destruct i as [|i]; [exact Hab | apply IH; lia].
Qed.

Lemma Forall2_const (P : B -> Prop) (l1 : list A) (l2 : list B) :
  length l1 = length l2 -> Forall P l2 -> Forall2 (fun _ x => P x) l1 l2.
Proof.
  revert l2. induction l1 as [|a l1 IH]; intros [|b l2] H HP; simpl in *;
    try discriminate; constructor.
  - inversion HP; assumption.
  - apply IH; [lia | inversion HP; assumption].
Qed.

Lemma mask_sum_filter (f : A -> bool) (l : list A) :
  mask_sum (map f l) = length (filter f l).
Proof.
  induction l as [|a l IH]; simpl; [reflexivity | ].
  destruct (f a); simpl; congruence.
Qed.
End Arrays.

Lemma nth_map_lt {A B} (f : A -> B) (l : list A) i d d' :
  (i < length l)%nat -> nth i (map f l) d = f (nth i l d').
Proof.
  intro H. rewrite (nth_indep _ d (f d')) by (rewrite length_map; exact H).
  apply map_nth.
Qed.

(** [arr[mask] = vals] succeeds when there is one value per selected row, and
    then a selected row holds its value and any other row is unchanged. *)
Lemma mask_assign_spec {A B} (f : A -> bool) (R P : A -> B -> Prop)
    (rs : list A) (arr vals : list B) :
  Forall2 R rs arr ->
  Forall2 P (filter f rs) vals ->
  exists arr',
    mask_assign arr (map f rs) vals = Some arr' /\
    Forall2 (fun r x => if f r then P r x else R r x) rs arr'.
Proof.
  intro H. revert vals.
  induction H as [|r a rs arr Hra _ IH]; intros vals HP; simpl in *.
  - inversion HP; subst. exists []. split; [reflexivity | constructor].
  - destruct (f r) eqn:E.
    + inversion HP as [|r' v l vals' Hv Hrest]; subst.
      destruct (IH _ Hrest) as [arr' [E' F']].
      exists (v :: arr'). rewrite E'. split; [reflexivity | ].
      constructor; [rewrite E; exact Hv | exact F'].
    + destruct (IH _ HP) as [arr' [E' F']].
      exists (a :: arr'). rewrite E'. split; [reflexivity | ].
      constructor; [rewrite E; exact Hra | exact F'].
Qed.

Lemma mask_fill_spec {A B} (f : A -> bool) (R : A -> B -> Prop)
    (rs : list A) (arr : list B) (c : B) :
  Forall2 R rs arr ->
  exists arr',
    mask_fill arr (map f rs) c = Some arr' /\
    Forall2 (fun r x => if f r then x = c else R r x) rs arr'.
Proof.
  intro H. unfold mask_fill.
  apply (mask_assign_spec f R (fun _ x => x = c)); [exact H | ].
  rewrite mask_sum_filter. apply Forall2_const.
  - now rewrite repeat_length.
  - apply Forall_forall. intros x Hx. now apply repeat_spec in Hx.
Qed.

(** [arr[mask] *= c] scales the selected entries and leaves the others. *)
Lemma mask_imul_spec (arr : list Q) (mask : list bool) (c : Q) :
  length arr = length mask ->
  mask_imul arr mask c =
  Some (map2 (fun x (b : bool) => if b then x * c else x) arr mask).
Proof.
  unfold mask_imul. revert mask.
  induction arr as [|a arr IH]; intros [|b mask] H; simpl in *;
    try discriminate; [reflexivity | ].
  destruct b; simpl; rewrite IH by lia; reflexivity.
Qed.

Lemma mask_select_combine {A B} (f : A -> bool) (rs : list A) (col : list B) :
  length rs = length col ->
  mask_select col (map f rs) =
  map snd (filter (fun p => f (fst p)) (combine rs col)).
Proof.
  revert col. induction rs as [|r rs IH]; intros [|b col] H; simpl in *;
    try discriminate; [reflexivity | ].
  destruct (f r); simpl; rewrite IH by lia; reflexivity.
Qed.

Lemma map_fst_combine_mask {A B} (f : A -> bool) (rs : list A) (col : list B) :
  length rs = length col ->
  map (fun p => f (fst p)) (combine rs col) = map f rs.
Proof.
  revert col. induction rs as [|r rs IH]; intros [|b col] H; simpl in *;
    try discriminate; [reflexivity | ].
  rewrite IH by lia. reflexivity.
Qed.

Lemma Forall2_map2_draw {A} (P : A -> Z -> Prop) (D : Q -> Prop)
    (h : A -> Q) (l : list A) (draws : list Q) :
  length l = length draws -> Forall D draws ->
  (forall a d, D d -> P a (trunc (h a * d))) ->
  Forall2 P l (map trunc (map2 Qmult (map h l) draws)).
Proof.
  intros H HD HP. revert draws H HD.
  induction l as [|a l IH]; intros [|d draws] H HD; simpl in *;
    try discriminate; constructor.
  - apply HP. inversion HD; assumption.
  - apply IH; [lia | inversion HD; assumption].
Qed.

(** ** Running the random generator *)

Lemma take_samples_length (s : N -> Q) pos n :
  length (take_samples s pos n) = n.
Proof. revert pos. induction n; intro; simpl; auto. Qed.

Lemma take_samples_Forall (U : Q -> Prop) (s : N -> Q) pos n :
  (forall k, U (s k)) -> Forall U (take_samples s pos n).
Proof.
  intro H. revert pos. induction n; intro; simpl; constructor; auto.
Qed.

Lemma wp_ret {A} (a : A) (post : A -> Rng -> Prop) g :
  post a g -> wp (ret a) post g.
Proof. intro H. exists a, g. split; [reflexivity | exact H]. Qed.

Lemma wp_bind {A B} (m : M A) (k : A -> M B) (post : B -> Rng -> Prop) g :
  wp m (fun a g' => wp (k a) post g') g -> wp (bind m k) post g.
Proof.
  intros [a [g' [E [b [g'' [E' H]]]]]].
  exists b, g''. unfold bind. rewrite E. split; assumption.
Qed.

Lemma wp_try {A} (o : option A) (a : A) (post : A -> Rng -> Prop) g :
  o = Some a -> post a g -> wp (try o) post g.
Proof. intros -> H. exists a, g. split; [reflexivity | exact H]. Qed.

Lemma wp_uniform (U : Q -> Prop) low high n (post : list Q -> Rng -> Prop) g :
  samples_in U g ->
  (forall l g', samples_in U g' -> length l = n ->
                Forall (unif_draw U low high) l -> post l g') ->
  wp (uniform low high n) post g.
Proof.
  intros Hg H. unfold uniform. apply wp_bind.
  eexists _, _. split; [reflexivity | ]. apply wp_ret. apply H.
  - exact Hg.
  - now rewrite length_map, take_samples_length.
  - apply Forall_map. eapply Forall_impl; [ | apply take_samples_Forall, Hg].
    intros u Hu. exists u. split; [exact Hu | reflexivity].
Qed.

Lemma wp_randint (U : Q -> Prop) low high n (post : list Z -> Rng -> Prop) g :
  samples_in U g ->
  (forall l g', samples_in U g' -> length l = n ->
                Forall (int_draw U low high) (as_float l) -> post l g') ->
  wp (randint low high n) post g.
Proof.
  intros Hg H. unfold randint. apply wp_bind.
  eexists _, _. split; [reflexivity | ]. apply wp_ret. apply H.
  - exact Hg.
  - now rewrite length_map, take_samples_length.
  - unfold as_float. apply Forall_map, Forall_map.
    eapply Forall_impl; [ | apply take_samples_Forall, Hg].
    intros u Hu. exists u. split; [exact Hu | reflexivity].
Qed.

(** Drawing one value per selected row and storing them under the mask. *)
Lemma wp_uniform_assign {A B} (U : Q -> Prop) (f : A -> bool)
    (R : A -> Q -> Prop) (rs : list A) (arr : list Q) low high
    (k : list Q -> M B) (post : B -> Rng -> Prop) g :
  samples_in U g ->
  Forall2 R rs arr ->
  (forall arr' g', samples_in U g' ->
     Forall2 (fun r x => if f r then unif_draw U low high x else R r x) rs arr' ->
     wp (k arr') post g') ->
  wp (v <- uniform low high (mask_sum (map f rs)) ;;
      arr' <- try (mask_assign arr (map f rs) v) ;; k arr') post g.
Proof.
  intros Hg HR H. apply wp_bind. apply (wp_uniform U); [exact Hg | ].
  intros l g' Hg' Hl HF.
  destruct (mask_assign_spec f R (fun _ => unif_draw U low high) rs arr l HR)
    as [arr' [E F]].
  - apply Forall2_const; [ | exact HF]. now rewrite Hl, mask_sum_filter.
  - apply wp_bind. eapply wp_try; [exact E | ]. apply H; assumption.
Qed.

Lemma wp_randint_assign {A B} (U : Q -> Prop) (f : A -> bool)
    (R : A -> Q -> Prop) (rs : list A) (arr : list Q) low high
    (k : list Q -> M B) (post : B -> Rng -> Prop) g :
  samples_in U g ->
  Forall2 R rs arr ->
  (forall arr' g', samples_in U g' ->
     Forall2 (fun r x => if f r then int_draw U low high x else R r x) rs arr' ->
     wp (k arr') post g') ->
  wp (v <- randint low high (mask_sum (map f rs)) ;;
      arr' <- try (mask_assign arr (map f rs) (as_float v)) ;; k arr') post g.
Proof.
  intros Hg HR H. apply wp_bind. apply (wp_randint U); [exact Hg | ].
  intros l g' Hg' Hl HF.
  destruct (mask_assign_spec f R (fun _ => int_draw U low high) rs arr
              (as_float l) HR) as [arr' [E F]].
  - apply Forall2_const; [ | exact HF].
    unfold as_float. now rewrite length_map, Hl, mask_sum_filter.
  - apply wp_bind. eapply wp_try; [exact E | ]. apply H; assumption.
Qed.

(** ** Step C, row by row *)

Lemma Forall2_repeat {A B} (c : B) (rs : list A) :
  Forall2 (fun _ x => x = c) rs (repeat c (length rs)).
Proof. induction rs; simpl; constructor; auto. Qed.

Lemma map2_length_min {A B C} (f : A -> B -> C) (l1 : list A) (l2 : list B) :
  length (map2 f l1 l2) = Nat.min (length l1) (length l2).
Proof.
  revert l2. induction l1 as [|a l1 IH]; intros [|b l2]; simpl; auto.
Qed.

Ltac len :=
  unfold as_float, np_where, zeros;
  repeat rewrite ?length_map, ?map2_length_min, ?repeat_length,
                 ?length_combine;
  lia.

Lemma nth_np_where (cond : list bool) a b i :
  (i < length cond)%nat ->
  nth i (np_where cond a b) 0 = if nth i cond false then a else b.
Proof. intro H. unfold np_where. now rewrite (nth_map_lt _ _ _ _ false). Qed.

Lemma metric_logic_spec (U : Q -> Prop) (df : list Skel) (g : Rng) :
  samples_in U g ->
  wp (metric_logic df)
     (fun m _ => full_columns (length df) m /\
                 forall i, (i < length df)%nat -> row_spec U (row_at df m i))
     g.
Proof.
  intro Hg. unfold metric_logic. cbv zeta.
  pose proof (Forall2_repeat 0 df) as Hz. fold (zeros (length df)) in Hz.
  (* Programmatic *)
  apply (wp_randint_assign U _ _ _ _ _ _ _ _ _ Hg Hz). intros b1 g1 Hg1 Hb1.
  apply (wp_uniform_assign U _ _ _ _ _ _ _ _ _ Hg1 Hz). intros c1 g2 Hg2 Hc1.
  apply (wp_uniform_assign U _ _ _ _ _ _ _ _ _ Hg2 Hz). intros p1 g3 Hg3 Hp1.
  (* Paid Search *)
  apply (wp_randint_assign U _ _ _ _ _ _ _ _ _ Hg3 Hb1). intros b2 g4 Hg4 Hb2.
  apply (wp_uniform_assign U _ _ _ _ _ _ _ _ _ Hg4 Hc1). intros c2 g5 Hg5 Hc2.
  apply (wp_uniform_assign U _ _ _ _ _ _ _ _ _ Hg5 Hp1). intros p2 g6 Hg6 Hp2.
  (* Paid Social *)
  apply (wp_randint_assign U _ _ _ _ _ _ _ _ _ Hg6 Hb2). intros b3 g7 Hg7 Hb3.
  apply (wp_uniform_assign U _ _ _ _ _ _ _ _ _ Hg7 Hc2). intros c3 g8 Hg8 Hc3.
  apply (wp_uniform_assign U _ _ _ _ _ _ _ _ _ Hg8 Hp2). intros p3 g9 Hg9 Hp3.
  (* Organic *)
  apply (wp_randint_assign U _ _ _ _ _ _ _ _ _ Hg9 Hb3). intros b4 g10 Hg10 Hb4.
  apply (wp_uniform_assign U _ _ _ _ _ _ _ _ _ Hg10 Hc3). intros c4 g11 Hg11 Hc4.
  clear Hb1 Hb2 Hb3 Hc1 Hc2 Hc3 Hp1 Hp2 b1 b2 b3 c1 c2 c3 p1 p2.
  fold (base_imps_spec U) in Hb4. fold (ctrs_spec U) in Hc4.
  destruct (mask_fill_spec (is_channel "Organic") _ df p3 0.0 Hp3)
    as [p4 [Ep4 Hp4]].
  apply wp_bind. eapply wp_try; [exact Ep4 | ]. clear Ep4 Hp3 p3.
  fold (cpcs_spec U) in Hp4.
  pose proof (Forall2_length Hb4) as Lb.
  pose proof (Forall2_length Hc4) as Lc.
  pose proof (Forall2_length Hp4) as Lp.
  assert (Ls : length (np_where (map sk_is_weekend df) 0.7 1.1) = length df)
    by len.
  (* insights *)
  apply wp_bind. eapply wp_try.
  { apply mask_imul_spec. len. }
  apply wp_bind. eapply wp_try.
  { apply mask_imul_spec. len. }
  (* final calculations *)
  apply wp_bind. apply (wp_uniform U); [exact Hg11 | ].
  intros cr g12 Hg12 Lcr Hcr.
  set (seas := np_where (map sk_is_weekend df) 0.7 1.1) in *.
  set (simps := map2 Qmult b4 seas).
  set (fimps := map2 (fun x (b : bool) => if b then x * 3.0 else x) simps
                     (map is_spike df)).
  set (cadj := map2 (fun x (b : bool) => if b then x * 0.7 else x) p4
                    (map is_effic df)).
  set (imps := map trunc fimps).
  set (clk := map trunc (map2 Qmult (as_float imps) c4)).
  set (spd := map round2 (map2 Qmult (as_float clk) cadj)).
  set (cnv := map trunc (map2 Qmult (as_float clk) cr)).
  assert (Lsi : length simps = length df)
    by (unfold simps; len).
  assert (Lfi : length fimps = length df)
    by (unfold fimps; len).
  assert (Lca : length cadj = length df)
    by (unfold cadj; len).
  assert (Lim : length imps = length df)
    by (unfold imps; len).
  assert (Lck : length clk = length df)
    by (unfold clk; len).
  assert (Lsp : length spd = length df)
    by (unfold spd; len).
  assert (Lcn : length cnv = length df)
    by (unfold cnv; len).
  (* video views *)
  apply wp_bind. apply (wp_uniform U); [exact Hg12 | ].
  intros v g13 Hg13 Lv Hv.
  set (isin := channel_isin ["Programmatic"; "Paid Social"]%string) in *.
  assert (Lcb : length (combine df imps) = length df)
    by len.
  destruct (mask_assign_spec
              (fun p : Skel * Z => isin (fst p))
              (fun _ x => x = 0%Z)
              (fun p x => exists u, U u /\
                 x = trunc (inject_Z (snd p) * 0.40 * uniform_of 0.8 1.2 u))
              (combine df imps) (repeat 0%Z (length df))
              (map trunc
                 (map2 Qmult
                    (map (fun i => inject_Z i * 0.40)
                         (mask_select imps (map isin df))) v)))
    as [vid [Ev Hvid]].
  { pose proof (Forall2_repeat 0%Z (combine df imps)) as Hrep.
    rewrite Lcb in Hrep. exact Hrep. }
  { rewrite mask_select_combine by lia. rewrite map_map.
    apply (Forall2_map2_draw _ (unif_draw U 0.8 1.2)
             (fun a : Skel * Z => inject_Z (snd a) * 0.40)).
    - rewrite Lv, <- (map_fst_combine_mask isin df imps) by lia.
      now rewrite mask_sum_filter.
    - exact Hv.
    - intros a d [u [Hu ->]]. exists u. split; [exact Hu | reflexivity]. }
  rewrite map_fst_combine_mask in Ev by lia.
  apply wp_bind. eapply wp_try; [exact Ev | ]. clear Ev.
  pose proof (Forall2_length Hvid) as Lvi. rewrite Lcb in Lvi.
  apply wp_ret. split.
  { unfold full_columns; simpl. repeat split; lia. }
  intros i Hi. unfold row_at. constructor; simpl.
  - unfold seas. rewrite nth_np_where by len.
    now rewrite (nth_map_lt _ _ _ _ no_skel) by lia.
  - exact (Forall2_nth _ _ _ _ _ _ Hb4 Hi).
  - exact (Forall2_nth _ _ _ _ _ _ Hc4 Hi).
  - exact (Forall2_nth _ _ _ _ _ _ Hp4 Hi).
  - unfold simps. apply nth_map2; lia.
  - unfold fimps. rewrite (nth_map2 _ _ _ _ _ 0 false) by len.
    now rewrite (nth_map_lt _ _ _ _ no_skel) by lia.
  - unfold cadj. rewrite (nth_map2 _ _ _ _ _ 0 false) by len.
    now rewrite (nth_map_lt _ _ _ _ no_skel) by lia.
  - unfold imps. apply nth_map_lt. lia.
  - unfold clk. rewrite (nth_map_lt _ _ _ _ 0) by len.
    rewrite (nth_map2 _ _ _ _ _ 0 0) by len.
    unfold as_float. now rewrite (nth_map_lt _ _ _ _ 0%Z) by lia.
  - unfold spd. rewrite (nth_map_lt _ _ _ _ 0) by len.
    rewrite (nth_map2 _ _ _ _ _ 0 0) by len.
    unfold as_float. now rewrite (nth_map_lt _ _ _ _ 0%Z) by lia.
  - apply (proj1 (Forall_forall _ _) Hcr). apply nth_In. lia.
  - unfold cnv. rewrite (nth_map_lt _ _ _ _ 0) by len.
    rewrite (nth_map2 _ _ _ _ _ 0 0) by len.
    unfold as_float. now rewrite (nth_map_lt _ _ _ _ 0%Z) by lia.
  - assert (Hc : (i < length (combine df imps))%nat) by lia.
    pose proof (Forall2_nth _ _ _ i (no_skel, 0%Z) 0%Z Hvid Hc) as H.
    rewrite combine_nth in H by lia. exact H.
Qed.

(** ** From columns to rows *)

Lemma wp_impl {A} (m : M A) (P P' : A -> Rng -> Prop) g :
  wp m P g -> (forall a g', P a g' -> P' a g') -> wp m P' g.
Proof.
  intros [a [g' [E H]]] HI. exists a, g'. split; [exact E | auto].
Qed.

Lemma generates_impl (g : Rng) (P P' : StarSchema -> Prop) :
  generates g P -> (forall out, P out -> P' out) -> generates g P'.
Proof.
  intros H HI. eapply wp_impl; [exact H | ]. intros out g'. apply HI.
Qed.

Lemma seq_shift_map {A} (f : nat -> A) (n : nat) :
  map f (seq 1 n) = map (fun i => f (S i)) (seq 0 n).
Proof. now rewrite <- seq_shift, map_map. Qed.

Lemma Forall_rows_of (P : Row -> Prop) (df : list Skel) (m : Metrics) :
  (forall i, (i < length df)%nat -> P (row_at df m i)) ->
  Forall P (rows_of df m).
Proof.
  intro H. unfold rows_of. apply Forall_map, Forall_forall.
  intros i Hi. apply in_seq in Hi. apply H. lia.
Qed.

Lemma zip_fact_seq (df : list Skel) (imp clk : list Z) (spd : list Q)
    (cnv vid : list Z) :
  length imp = length df -> length clk = length df ->
  length spd = length df -> length cnv = length df ->
  length vid = length df ->
  zip_fact df imp clk spd cnv vid =
  map (fun i =>
         mkFactRow (sk_date_key (nth i df no_skel))
                   (sk_source_id (nth i df no_skel))
                   (sk_campaign_id (nth i df no_skel))
                   (nth i imp 0%Z) (nth i clk 0%Z) (nth i spd 0)
                   (nth i cnv 0%Z) (nth i vid 0%Z))
      (seq 0 (length df)).
Proof.
  revert imp clk spd cnv vid.
  induction df as [|r df IH];
    intros [|a imp] [|b clk] [|c spd] [|d cnv] [|e vid] H1 H2 H3 H4 H5;
    simpl in *; try discriminate; [reflexivity | ].
  f_equal. rewrite seq_shift_map. apply IH; lia.
Qed.

Lemma fact_final_rows (df : list Skel) (m : Metrics) :
  full_columns (length df) m ->
  fact_final df m = map fact_of_row (rows_of df m).
Proof.
  intro F. unfold full_columns in F.
  unfold fact_final, rows_of. rewrite map_map.
  rewrite zip_fact_seq by tauto. reflexivity.
Qed.

(** The generator returns for every state of the random generator; its
    tables are the fixed dimensions and skeleton, each array has one entry
    per row of the skeleton, and each row is as [row_spec] says. *)
Lemma generate_spec (U : Q -> Prop) (g : Rng) :
  samples_in U g ->
  generates g (fun out =>
    out_dim_date out = dim_date /\
    out_dim_source out = dim_source /\
    out_dim_campaign out = dim_campaign /\
    out_df_fact out = df_skeleton /\
    full_columns (length df_skeleton) (out_metrics out) /\
    out_fact out = map fact_of_row (rows out) /\
    Forall (row_spec U) (rows out)).
Proof.
  intro Hg. unfold generates, generate_marketing_star_schema.
  apply wp_bind.
  eapply wp_impl; [apply (metric_logic_spec U df_skeleton g Hg) | ].
  intros m g' [F H]. apply wp_ret. unfold rows. cbn [out_dim_date
    out_dim_source out_dim_campaign out_df_fact out_metrics out_fact].
  refine (conj eq_refl (conj eq_refl (conj eq_refl (conj eq_refl
            (conj F (conj _ _)))))).
  - apply fact_final_rows. exact F.
  - apply Forall_rows_of. exact H.
Qed.

Lemma any_samples (g : Rng) : samples_in any_sample g.
Proof. intro k. exact I. Qed.

Lemma rows_length (out : StarSchema) :
  length (rows out) = length (out_df_fact out).
Proof. unfold rows, rows_of. now rewrite length_map, length_seq. Qed.

Lemma rows_skel_in (out : StarSchema) (r : Row) :
  In r (rows out) -> In (r_skel r) (out_df_fact out).
Proof.
  unfold rows, rows_of. intro H. apply in_map_iff in H.
  destruct H as [i [E Hi]]. subst r. apply in_seq in Hi.
  unfold row_at. cbn [r_skel]. apply nth_In. lia.
Qed.


(** ** Truncation and rounding *)

Lemma inject_Z_nonneg (n : Z) : (0 <= n)%Z -> 0 <= inject_Z n.
Proof. intro H. change 0 with (inject_Z 0). now rewrite <- Zle_Qle. Qed.

Lemma trunc_floor (x : Q) : 0 <= x -> trunc x = Qfloor x.
Proof.
  destruct x as [n d]. unfold Qle, trunc, Qfloor. simpl. intro H.
  apply Z.quot_div_nonneg; lia.
Qed.

Lemma Qfloor_nonneg (x : Q) : 0 <= x -> (0 <= Qfloor x)%Z.
Proof.
  intro H. change 0%Z with (Qfloor 0). now apply Qfloor_resp_le.
Qed.

Lemma trunc_nonneg (x : Q) : 0 <= x -> (0 <= trunc x)%Z.
Proof. intro H. rewrite trunc_floor by exact H. now apply Qfloor_nonneg. Qed.

Lemma trunc_le (x : Q) (n : Z) : 0 <= x -> x <= inject_Z n -> (trunc x <= n)%Z.
Proof.
  intros H0 H. rewrite trunc_floor by exact H0.
  rewrite <- (Qfloor_Z n). now apply Qfloor_resp_le.
Qed.

Lemma trunc_below (x : Q) : 0 <= x -> inject_Z (trunc x) <= x.
Proof. intro H. rewrite trunc_floor by exact H. apply Qfloor_le. Qed.

Lemma trunc_above (x : Q) : 0 <= x -> x < inject_Z (trunc x) + 1.
Proof.
  intro H. rewrite trunc_floor by exact H.
  pose proof (Qlt_floor x) as L. rewrite inject_Z_plus in L. exact L.
Qed.

Lemma rint_cases (y : Q) :
  let f := Qfloor y in
  (rint y = f /\ y - inject_Z f <= 1 # 2) \/
  (rint y = (f + 1)%Z /\ (1 # 2) <= y - inject_Z f).
Proof.
  intro f. unfold rint. fold f.
  destruct (Qcompare (y - inject_Z f) (1 # 2)) eqn:E.
  - apply Qeq_alt in E.
    destruct (Z.even f); [left | right]; split; try reflexivity;
      rewrite E; apply Qle_refl.
  - apply Qlt_alt in E. left. split; [reflexivity | now apply Qlt_le_weak].
  - apply Qgt_alt in E. right. split; [reflexivity | now apply Qlt_le_weak].
Qed.

Lemma rint_close (y : Q) :
  - (1 # 2) <= inject_Z (rint y) - y /\ inject_Z (rint y) - y <= 1 # 2.
Proof.
  pose proof (Qfloor_le y) as L. pose proof (Qlt_floor y) as G.
  rewrite inject_Z_plus in G. change (inject_Z 1) with 1 in G.
  destruct (rint_cases y) as [[-> H] | [-> H]].
  - split; lra.
  - rewrite inject_Z_plus. change (inject_Z 1) with 1. split; lra.
Qed.

Lemma rint_nonneg (y : Q) : 0 <= y -> (0 <= rint y)%Z.
Proof.
  intro H. pose proof (Qfloor_nonneg y H).
  destruct (rint_cases y) as [[-> _] | [-> _]]; lia.
Qed.

Lemma rint_comp (x y : Q) : x == y -> rint x = rint y.
Proof.
  intro E. unfold rint. rewrite (Qfloor_comp _ _ E).
  assert (E' : x - inject_Z (Qfloor y) == y - inject_Z (Qfloor y))
    by (rewrite E; reflexivity).
  rewrite (Qcompare_comp _ _ E' (1 # 2) (1 # 2) (Qeq_refl _)). reflexivity.
Qed.

Lemma round2_nonneg (x : Q) : 0 <= x -> 0 <= round2 x.
Proof.
  intro H. unfold round2.
  assert (H1 : 0 <= inject_Z (rint (x * 100)))
    by (apply inject_Z_nonneg, rint_nonneg; lra).
  apply Qle_shift_div_l; [reflexivity | lra].
Qed.

Lemma round2_zero (x : Q) : x == 0 -> round2 x == 0.
Proof.
  intro E. unfold round2.
  assert (E' : x * 100 == 0) by (rewrite E; reflexivity).
  rewrite (rint_comp _ _ E'). reflexivity.
Qed.

(** [round2 x] is a whole number of hundredths, at most half a hundredth
    away from [x]. *)
Lemma round2_close (x : Q) :
  - (1 # 200) <= round2 x - x /\ round2 x - x <= 1 # 200.
Proof.
  unfold round2. destruct (rint_close (x * 100)) as [L G].
  set (k := inject_Z (rint (x * 100))) in *.
  assert (E : k / 100 == k * (1 # 100)) by (unfold Qdiv; reflexivity).
  rewrite E. split; lra.
Qed.

(** ** The ranges of the draws *)

Lemma unif_draw_range (low high x : Q) :
  low <= high -> unif_draw unit_interval low high x ->
  low <= x /\ x <= high.
Proof.
  intros H [u [[H0 H1] ->]]. unfold uniform_of. split; nra.
Qed.

Lemma int_draw_range (low high : Z) (x : Q) :
  (low < high)%Z -> int_draw unit_interval low high x ->
  exists k, x = inject_Z k /\ (low <= k < high)%Z.
Proof.
  intros H [u [[H0 H1] ->]]. eexists. split; [reflexivity | ].
  unfold randint_of.
  assert (Hd : 0 < inject_Z (high - low)).
  { change 0 with (inject_Z 0). rewrite <- Zlt_Qlt. lia. }
  assert (Hp : 0 <= inject_Z (high - low) * u) by nra.
  assert (Hq : inject_Z (high - low) * u < inject_Z (high - low)) by nra.
  pose proof (Qfloor_nonneg _ Hp) as F0.
  pose proof (Qfloor_le (inject_Z (high - low) * u)) as F1.
  assert (F2 : (Qfloor (inject_Z (high - low) * u) < high - low)%Z).
  { rewrite Zlt_Qlt. eapply Qle_lt_trans; eassumption. }
  lia.
Qed.

Lemma by_channel_elim (P1 P2 P3 P4 G : Q -> Prop) (r : Skel) (x : Q) :
  by_channel P1 P2 P3 P4 r x ->
  (forall y, P1 y -> G y) -> (forall y, P2 y -> G y) ->
  (forall y, P3 y -> G y) -> (forall y, P4 y -> G y) ->
  (forall y, y = 0 -> G y) -> G x.
Proof.
  unfold by_channel. intros H H1 H2 H3 H4 H0.
  destruct (is_channel "Organic" r); [auto | ].
  destruct (is_channel "Paid Social" r); [auto | ].
  destruct (is_channel "Paid Search" r); [auto | ].
  destruct (is_channel "Programmatic" r); auto.
Qed.

Lemma base_imps_nonneg (r : Skel) (x : Q) :
  base_imps_spec unit_interval r x -> 0 <= x.
Proof.
  intro H. apply (by_channel_elim _ _ _ _ (fun y => 0 <= y) _ _ H);
    try (intros y Hy; apply int_draw_range in Hy; [ | lia];
         destruct Hy as [k [-> Hk]]; apply inject_Z_nonneg; lia).
  intros y ->. apply Qle_refl.
Qed.

Lemma ctrs_range (r : Skel) (x : Q) :
  ctrs_spec unit_interval r x -> 0 <= x /\ x < 1.
Proof.
  intro H. apply (by_channel_elim _ _ _ _ (fun y => 0 <= y /\ y < 1) _ _ H);
    try (intros y Hy; apply unif_draw_range in Hy; [ | lra]; lra).
  intros y ->. split; lra.
Qed.

Lemma cpcs_nonneg (r : Skel) (x : Q) :
  cpcs_spec unit_interval r x -> 0 <= x.
Proof.
  intro H. apply (by_channel_elim _ _ _ _ (fun y => 0 <= y) _ _ H);
    try (intros y Hy; apply unif_draw_range in Hy; [ | lra]; lra).
  - intros y ->. lra.
  - intros y ->. lra.
Qed.

(** ** Bounds on the metrics of a row *)

Section RowBounds.
Variable r : Row.
Hypothesis S : row_spec unit_interval r.

Lemma row_seasonality_pos : 0 < r_seasonality r.
Proof.
  rewrite (rs_seasonality _ _ S).
  destruct (sk_is_weekend (r_skel r)); reflexivity.
Qed.

Lemma row_final_imps_nonneg : 0 <= r_final_imps r.
Proof.
  pose proof (base_imps_nonneg _ _ (rs_base _ _ S)) as Hb.
  pose proof row_seasonality_pos as Hs.
  assert (H : 0 <= r_seasonal_imps r)
    by (rewrite (rs_seasonal _ _ S); nra).
  rewrite (rs_final _ _ S).
  destruct (is_spike (r_skel r)); lra.
Qed.

Lemma row_impressions_nonneg : (0 <= r_impressions r)%Z.
Proof.
  rewrite (rs_impressions _ _ S). apply trunc_nonneg, row_final_imps_nonneg.
Qed.

Lemma row_clicks_product :
  0 <= inject_Z (r_impressions r) * r_ctr r /\
  inject_Z (r_impressions r) * r_ctr r <= inject_Z (r_impressions r).
Proof.
  pose proof (inject_Z_nonneg _ row_impressions_nonneg) as Hi.
  pose proof (ctrs_range _ _ (rs_ctr _ _ S)) as Hc.
  split; nra.
Qed.

Lemma row_clicks_range : (0 <= r_clicks r <= r_impressions r)%Z.
Proof.
  destruct row_clicks_product as [H0 H1]. rewrite (rs_clicks _ _ S).
  split; [now apply trunc_nonneg | now apply trunc_le].
Qed.

Lemma row_cpc_nonneg : 0 <= r_cpc r.
Proof.
  pose proof (cpcs_nonneg _ _ (rs_cpc_drawn _ _ S)) as Hp.
  rewrite (rs_cpc _ _ S). destruct (is_effic (r_skel r)); lra.
Qed.

Lemma row_spend_nonneg : 0 <= r_spend r.
Proof.
  pose proof (inject_Z_nonneg _ (proj1 row_clicks_range)) as Hc.
  pose proof row_cpc_nonneg as Hp.
  rewrite (rs_spend _ _ S). apply round2_nonneg. nra.
Qed.

Lemma row_conv_rate_range : 0.05 <= r_conv_rate r /\ r_conv_rate r <= 0.15.
Proof. apply unif_draw_range; [lra | apply (rs_conv_rate _ _ S)]. Qed.

Lemma row_conversions_product :
  0 <= inject_Z (r_clicks r) * r_conv_rate r /\
  inject_Z (r_clicks r) * r_conv_rate r <= inject_Z (r_clicks r).
Proof.
  pose proof (inject_Z_nonneg _ (proj1 row_clicks_range)) as Hc.
  pose proof row_conv_rate_range as Hr.
  split; nra.
Qed.

Lemma row_conversions_range : (0 <= r_conversions r <= r_clicks r)%Z.
Proof.
  destruct row_conversions_product as [H0 H1].
  rewrite (rs_conversions _ _ S).
  split; [now apply trunc_nonneg | now apply trunc_le].
Qed.

Lemma row_video_range : (0 <= r_video_views r <= r_impressions r)%Z.
Proof.
  pose proof row_impressions_nonneg as Hz.
  pose proof (inject_Z_nonneg _ Hz) as Hi.
  pose proof (rs_video _ _ S) as H. unfold video_spec in H.
  destruct (channel_isin _ _).
  - destruct H as [u [[Hu0 Hu1] ->]]. unfold uniform_of.
    split; [apply trunc_nonneg | apply trunc_le]; nra.
  - rewrite H. lia.
Qed.
End RowBounds.

Lemma generates_fact_rows (U : Q -> Prop) (P : FactRow -> Prop) (g : Rng) :
  samples_in U g ->
  (forall r, row_spec U r -> P (fact_of_row r)) ->
  generates g (fun out => Forall P (out_fact out)).
Proof.
  intros Hg H. eapply generates_impl; [apply (generate_spec U g Hg) | ].
  intros out (_ & _ & _ & _ & _ & E & F). rewrite E.
  apply Forall_map. eapply Forall_impl; [ | exact F]. exact H.
Qed.

Lemma generates_rows (U : Q -> Prop) (P : Row -> Prop) (g : Rng) :
  samples_in U g ->
  (forall r, row_spec U r -> P r) ->
  generates g (fun out => Forall P (rows out)).
Proof.
  intros Hg H. eapply generates_impl; [apply (generate_spec U g Hg) | ].
  intros out (_ & _ & _ & _ & _ & _ & F).
  eapply Forall_impl; [ | exact F]. exact H.
Qed.

(** C1: with every sample in the unit interval, each row of the generated
    fact table has impressions >= 0, clicks <= impressions, spend >= 0 and
    conversions <= clicks. *)
Theorem C1_metric_bounds (g : Rng) :
  unit_samples g ->
  generates g (fun out =>
    Forall (fun f =>
              (0 <= f_impressions f)%Z /\
              (f_clicks f <= f_impressions f)%Z /\
              0 <= f_spend f /\
              (f_conversions f <= f_clicks f)%Z)
           (out_fact out)).
Proof.
  intro Hg. apply (generates_fact_rows unit_interval); [exact Hg | ].
  intros r S. cbn [fact_of_row f_impressions f_clicks f_spend f_conversions].
  repeat split.
  - apply row_impressions_nonneg, S.
  - apply row_clicks_range, S.
  - apply row_spend_nonneg, S.
  - apply row_conversions_range, S.
Qed.

Lemma unit_samples_eighth : unit_samples rng_eighth.
Proof.
  intro k. unfold unit_interval, rng_eighth, Qle, Qlt. simpl. lia.
Defined.

Lemma C1_metric_bounds_witness :
  unit_samples rng_eighth /\
  generates rng_eighth (fun out =>
    Forall (fun f =>
              (0 <= f_impressions f)%Z /\
              (f_clicks f <= f_impressions f)%Z /\
              0 <= f_spend f /\
              (f_conversions f <= f_clicks f)%Z)
           (out_fact out)).
Proof.
  split; [exact unit_samples_eighth | ].
  apply (C1_metric_bounds rng_eighth). exact unit_samples_eighth.
Defined.

(** C10: with every sample in the unit interval, each row of the generated
    fact table has 0 <= video_views <= impressions. *)
Theorem C10_video_views_bounds (g : Rng) :
  unit_samples g ->
  generates g (fun out =>
    Forall (fun f => (0 <= f_video_views f)%Z /\
                     (f_video_views f <= f_impressions f)%Z)
           (out_fact out)).
Proof.
  intro Hg. apply (generates_fact_rows unit_interval); [exact Hg | ].
  intros r S. cbn [fact_of_row f_impressions f_video_views].
  apply row_video_range, S.
Qed.

Lemma C10_video_views_bounds_witness :
  unit_samples rng_half /\
  generates rng_half (fun out =>
    Forall (fun f => (0 <= f_video_views f)%Z /\
                     (f_video_views f <= f_impressions f)%Z)
           (out_fact out)).
Proof.
  assert (H : unit_samples rng_half).
  { intro k. unfold unit_interval, rng_half, Qle, Qlt. simpl. lia. }
  split; [exact H | ]. apply (C10_video_views_bounds rng_half). exact H.
Defined.

(** ** The masks, read as slices of the table *)

Lemma is_channel_true (c : string) (s : Skel) :
  is_channel c s = true <-> sk_channel s = c.
Proof. unfold is_channel. apply String.eqb_eq. Qed.

Lemma is_spike_slice (r : Row) :
  is_spike (r_skel r) = true <-> august_spike_slice r.
Proof.
  unfold is_spike, august_spike_slice, r_channel.
  rewrite !andb_true_iff, !Z.eqb_eq, is_channel_true. tauto.
Qed.

Lemma is_effic_slice (r : Row) :
  is_effic (r_skel r) = true <-> december_efficiency_slice r.
Proof.
  unfold is_effic, december_efficiency_slice, r_channel.
  rewrite !andb_true_iff, !Z.eqb_eq, is_channel_true. tauto.
Qed.

Lemma channel_isin_slice (r : Row) :
  channel_isin ["Programmatic"; "Paid Social"]%string (r_skel r) = true <->
  video_slice r.
Proof.
  unfold channel_isin, video_slice, r_channel. cbn [existsb].
  rewrite !orb_true_iff, !String.eqb_eq. intuition discriminate.
Qed.

Lemma not_true_false (b : bool) : b <> true -> b = false.
Proof. destruct b; congruence. Qed.

(** C9: whatever the samples, a row whose channel is Organic has CPC 0,
    before and after the December adjustment, and spend 0. *)
Theorem C9_organic_zero_cost (g : Rng) :
  generates g (fun out =>
    Forall (fun r => r_channel r = "Organic"%string ->
                     r_cpc_drawn r == 0 /\ r_cpc r == 0 /\ r_spend r == 0)
           (rows out)).
Proof.
  apply (generates_rows any_sample); [apply any_samples | ].
  intros r S Hc. unfold r_channel in Hc.
  assert (Hd : r_cpc_drawn r = 0.0).
  { pose proof (rs_cpc_drawn _ _ S) as H.
    unfold cpcs_spec, by_channel, is_channel in H. rewrite Hc in H.
    exact H. }
  assert (Hp : r_cpc r = 0.0).
  { rewrite (rs_cpc _ _ S). unfold is_effic, is_channel. rewrite Hc.
    cbn [String.eqb Ascii.eqb Bool.eqb]. rewrite andb_false_r. exact Hd. }
  split; [rewrite Hd; reflexivity | ].
  split; [rewrite Hp; reflexivity | ].
  rewrite (rs_spend _ _ S), Hp. apply round2_zero. ring.
Qed.


(** ** The derived metrics *)







(** ** The joins *)

Section Joins.
Context {A B C : Type}.
Variable mk : A -> B -> C.

Lemma in_merge_cross (l : list A) (r : list B) (c : C) :
  In c (merge_cross mk l r) <-> exists a b, In a l /\ In b r /\ c = mk a b.
Proof.
  unfold merge_cross. rewrite in_flat_map. split.
  - intros [a [Ha Hc]]. apply in_map_iff in Hc. destruct Hc as [b [E Hb]].
    exists a, b. auto.
  - intros [a [b [Ha [Hb E]]]]. exists a. split; [exact Ha | ].
    apply in_map_iff. exists b. auto.
Qed.

Lemma length_merge_cross (l : list A) (r : list B) :
  length (merge_cross mk l r) = (length l * length r)%nat.
Proof.
  unfold merge_cross. induction l as [|a l IH]; simpl; [reflexivity | ].
  now rewrite length_app, length_map, IH.
Qed.

Variable kl : A -> string.
Variable kr : B -> string.

Lemma in_merge_on (l : list A) (r : list B) (c : C) :
  In c (merge_on kl kr mk l r) <->
  exists a b, In a l /\ In b r /\ kl a = kr b /\ c = mk a b.
Proof.
  unfold merge_on. rewrite in_flat_map. split.
  - intros [a [Ha Hc]]. apply in_map_iff in Hc. destruct Hc as [b [E Hb]].
    apply filter_In in Hb. destruct Hb as [Hb Hk].
    apply String.eqb_eq in Hk. exists a, b. auto.
  - intros [a [b [Ha [Hb [Hk E]]]]]. exists a. split; [exact Ha | ].
    apply in_map_iff. exists b. split; [auto | ].
    apply filter_In. split; [exact Hb | now apply String.eqb_eq].
Qed.

(** The inner join has one row per pair of the Cartesian product whose
    keys are equal. *)
Lemma length_merge_on (l : list A) (r : list B) :
  length (merge_on kl kr mk l r) =
  length (filter (fun p => String.eqb (kl (fst p)) (kr (snd p)))
                 (list_prod l r)).
Proof.
  unfold merge_on. induction l as [|a l IH]; simpl; [reflexivity | ].
  rewrite length_app, filter_app, length_app, IH. f_equal.
  rewrite length_map. clear IH.
  induction r as [|b r IHr]; simpl; [reflexivity | ].
  destruct (String.eqb (kl a) (kr b)); simpl; now rewrite IHr.
Qed.
End Joins.

Lemma skeleton_row (s : Skel) :
  In s df_skeleton ->
  In (lk_campaign (sk_link s)) dim_campaign /\
  In (lk_source (sk_link s)) dim_source /\
  channel_scope (lk_campaign (sk_link s)) = channel (lk_source (sk_link s)) /\
  exists d, In d dim_date /\ sk_date s = date_cols d.
Proof.
  unfold df_skeleton. intro H. apply in_merge_cross in H.
  destruct H as [k [dc [Hk [Hd ->]]]]. cbn [sk_link sk_date].
  unfold schema_link in Hk. apply in_merge_on in Hk.
  destruct Hk as [c [src [Hc [Hs [E ->]]]]]. cbn [lk_campaign lk_source].
  apply in_map_iff in Hd. destruct Hd as [d [Ed Hd]].
  repeat split; try assumption. exists d. auto.
Qed.

Lemma skeleton_length :
  length df_skeleton = (length pairs_sharing_channel * length dim_date)%nat.
Proof.
  unfold df_skeleton, schema_link, pairs_sharing_channel.
  now rewrite length_merge_cross, length_merge_on, length_map.
Qed.

Lemma table_sizes :
  length dim_campaign = 16%nat /\ length dim_source = 8%nat /\
  length dim_date = 456%nat /\ length pairs_sharing_channel = 36%nat.
Proof. repeat split; vm_compute; reflexivity. Qed.

(** Identifiers are unique in the two static dimensions, so a lookup by
    identifier returns the row that carries it. *)
Lemma find_campaign_id (c : DimCampaign) :
  In c dim_campaign -> find_campaign (campaign_id c) = Some c.
Proof.
  revert c. apply Forall_forall.
  unfold dim_campaign.
  let rows := eval vm_compute in campaign_rows in
  change campaign_rows with rows.
  repeat constructor.
Qed.

Lemma find_source_id (s : DimSource) :
  In s dim_source -> find_source (source_id s) = Some s.
Proof.
  revert s. apply Forall_forall.
  let rows := eval vm_compute in dim_source in
  change dim_source with rows.
  repeat constructor.
Qed.

Lemma generates_skeleton (P : FactRow -> Prop) (g : Rng) :
  (forall s, In s df_skeleton ->
     forall a b c d e,
       P (mkFactRow (sk_date_key s) (sk_source_id s) (sk_campaign_id s)
                    a b c d e)) ->
  generates g (fun out => Forall P (out_fact out)).
Proof.
  intro H. eapply generates_impl; [apply (generate_spec any_sample g), any_samples | ].
  intros out (_ & _ & _ & Edf & _ & E & _). rewrite E.
  apply Forall_map, Forall_forall. intros r Hr.
  apply rows_skel_in in Hr. rewrite Edf in Hr.
  unfold fact_of_row. apply H. exact Hr.
Qed.

Lemma generates_and (g : Rng) (P1 P2 : StarSchema -> Prop) :
  generates g P1 -> generates g P2 -> generates g (fun out => P1 out /\ P2 out).
Proof.
  intros [o1 [g1 [E1 H1]]] [o2 [g2 [E2 H2]]].
  rewrite E1 in E2. injection E2 as -> ->.
  exists o2, g2. split; [exact E1 | split; assumption].
Qed.

Lemma generates_tables (g : Rng) :
  generates g (fun out =>
    out_dim_date out = dim_date /\ out_dim_source out = dim_source /\
    out_dim_campaign out = dim_campaign /\
    length (out_fact out) = length df_skeleton).
Proof.
  eapply generates_impl; [apply (generate_spec any_sample g), any_samples | ].
  intros out (E1 & E2 & E3 & Edf & _ & E & _).
  repeat split; try assumption.
  now rewrite E, length_map, rows_length, Edf.
Qed.

(** C2: every row of the generated fact table carries a campaign_id of
    dim_campaign, a source_id of dim_source and a date_key of dim_date. *)
Theorem C2_referential_integrity (g : Rng) :
  generates g (fun out =>
    Forall (fun f =>
              In (f_campaign_id f) (map campaign_id (out_dim_campaign out)) /\
              In (f_source_id f) (map source_id (out_dim_source out)) /\
              In (f_date_key f) (map dd_date_key (out_dim_date out)))
           (out_fact out)).
Proof.
  eapply generates_impl.
  - apply generates_and; [apply generates_tables | ].
    apply (generates_skeleton
             (fun f => In (f_campaign_id f) (map campaign_id dim_campaign) /\
                       In (f_source_id f) (map source_id dim_source) /\
                       In (f_date_key f) (map dd_date_key dim_date))).
    intros s Hs a b c d e.
    cbn [f_campaign_id f_source_id f_date_key].
    destruct (skeleton_row s Hs) as (Hc & Hsrc & _ & dd & Hd & Ed).
    repeat split.
    + exact (in_map campaign_id _ _ Hc).
    + exact (in_map source_id _ _ Hsrc).
    + unfold sk_date_key. rewrite Ed. cbn [date_cols dc_date_key].
      exact (in_map dd_date_key _ _ Hd).
  - intros out [(E1 & E2 & E3 & _) H]. cbv beta in H.
    rewrite E1, E2, E3. exact H.
Qed.

(** C3: in every row of the generated fact table, the source found under
    source_id has the channel that is the scope of the campaign found under
    campaign_id; and any campaign and source carrying these identifiers
    agree on the channel. *)
Theorem C3_channel_consistency (g : Rng) :
  generates g (fun out =>
    Forall (fun f =>
              (exists c s,
                 find_campaign (f_campaign_id f) = Some c /\
                 find_source (f_source_id f) = Some s /\
                 channel s = channel_scope c) /\
              (forall c s,
                 In c (out_dim_campaign out) -> In s (out_dim_source out) ->
                 campaign_id c = f_campaign_id f ->
                 source_id s = f_source_id f ->
                 channel s = channel_scope c))
           (out_fact out)).
Proof.
  eapply generates_impl.
  - apply generates_and; [apply generates_tables | ].
    apply (generates_skeleton
             (fun f =>
                exists c s,
                  (In c dim_campaign /\ In s dim_source) /\
                  find_campaign (f_campaign_id f) = Some c /\
                  find_source (f_source_id f) = Some s /\
                  channel s = channel_scope c)).
    intros s Hs a b c d e. cbn [f_campaign_id f_source_id].
    destruct (skeleton_row s Hs) as (Hc & Hsrc & E & _).
    exists (lk_campaign (sk_link s)), (lk_source (sk_link s)).
    split; [split; assumption | ].
    split; [now apply find_campaign_id | ].
    split; [now apply find_source_id | ]. now rewrite E.
  - intros out [(_ & E2 & E3 & _) H]. cbv beta in H.
    rewrite E2, E3. eapply Forall_impl; [ | exact H].
    intros f (c & s & _ & Fc & Fs & E). split.
    + exists c, s. auto.
    + intros c' s' Hc' Hs' Ic Is.
      apply find_campaign_id in Hc'. apply find_source_id in Hs'.
      rewrite Ic, Fc in Hc'. rewrite Is, Fs in Hs'.
      injection Hc' as <-. injection Hs' as <-. exact E.
Qed.

(** C4, as the code has it: the fact table has one row per campaign/source
    pair sharing a channel and per date; under the fixed configuration there
    are 16 campaign rows, 36 such pairs and 456 dates, hence 36 x 456 =
    16416 rows. *)
Theorem C4_row_count (g : Rng) :
  generates g (fun out =>
    length (out_fact out) =
      (length pairs_sharing_channel * length (out_dim_date out))%nat /\
    length (out_dim_campaign out) = 16%nat /\
    length pairs_sharing_channel = 36%nat /\
    length (out_dim_date out) = 456%nat /\
    length (out_fact out) = (36 * 456)%nat).
Proof.
  eapply generates_impl; [apply generates_tables | ].
  intros out (E1 & _ & E3 & L).
  destruct table_sizes as (Lc & _ & Ld & Lp).
  rewrite E1, E3, L, skeleton_length, Lp, Ld, Lc. repeat split.
Qed.

(** The generated fact table does not have 16 x 456 rows. *)
Lemma C4_not_16_times_456 :
  generates rng0 (fun out =>
    length (out_fact out) = (36 * 456)%nat /\
    length (out_fact out) <> (16 * 456)%nat).
Proof.
  eapply generates_impl; [apply generates_tables | ].
  intros out (_ & _ & _ & L).
  destruct table_sizes as (_ & _ & Ld & Lp).
  rewrite L, skeleton_length, Lp, Ld.
  split; [vm_compute; reflexivity | ].
  intro H. apply Nat.eqb_eq in H. vm_compute in H. discriminate H.
Qed.

(** ** The enrichment stage *)

Module EnrichmentFacts.
Import Enrichment.

Lemma fdiv_pos (a : Q) (n : Z) :
  (0 < n)%Z -> fdiv a (inject_Z n) = Num (a / inject_Z n).
Proof.
  intro H. unfold fdiv.
  destruct (Qeq_bool (inject_Z n) 0) eqn:E; [ | reflexivity].
  apply Qeq_bool_eq in E. unfold Qeq in E. simpl in E. lia.
Qed.

Lemma guarded_pos (den : Z) (v : Q) : (0 < den)%Z -> guarded den v = Num v.
Proof. intro H. unfold guarded. apply Z.ltb_lt in H. now rewrite H. Qed.



(** One row of a guarded, scaled quotient of two columns. *)
Lemma where_scaled_row (den : Z) (num c : Q) :
  (if (0 <? den)%Z then fmul (fdiv num (inject_Z den)) c else Num 0) =
  guarded den (num / inject_Z den * c).
Proof.
  unfold guarded. destruct (0 <? den)%Z eqn:E; [ | reflexivity].
  apply Z.ltb_lt in E. now rewrite fdiv_pos.
Qed.

Lemma where_row (den : Z) (num : Q) :
  (if (0 <? den)%Z then fdiv num (inject_Z den) else Num 0) =
  guarded den (num / inject_Z den).
Proof.
  unfold guarded. destruct (0 <? den)%Z eqn:E; [ | reflexivity].
  apply Z.ltb_lt in E. now rewrite fdiv_pos.
Qed.

Section Columns.
Context {C S D : Type}.
Lemma CPM_rows (df : list (@MasterRow C S D)) :
  CPM df = map (fun r => cpm_of (m_fact r)) df.
Proof.
  unfold CPM, where_or_0, gt0, scale, div_cols, col_impressions,
    col_spend, as_float, cpm_of.
  induction df as [|r df IH]; simpl; [reflexivity | ].
  now rewrite IH, where_scaled_row.
Qed.

Lemma CTR_rows (df : list (@MasterRow C S D)) :
  CTR df = map (fun r => ctr_of (m_fact r)) df.
Proof.
  unfold CTR, where_or_0, gt0, scale, div_cols, col_impressions,
    col_clicks, as_float, ctr_of.
  induction df as [|r df IH]; simpl; [reflexivity | ].
  now rewrite IH, where_scaled_row.
Qed.

Lemma CPC_rows (df : list (@MasterRow C S D)) :
  CPC df = map (fun r => cpc_of (m_fact r)) df.
Proof.
  unfold CPC, where_or_0, gt0, div_cols, col_clicks, col_spend,
    as_float, cpc_of.
  induction df as [|r df IH]; simpl; [reflexivity | ].
  now rewrite IH, where_row.
Qed.

Lemma Conversion_Rate_rows (df : list (@MasterRow C S D)) :
  Conversion_Rate df = map (fun r => conversion_rate_of (m_fact r)) df.
Proof.
  unfold Conversion_Rate, where_or_0, gt0, scale, div_cols, col_clicks,
    col_conversions, as_float, conversion_rate_of.
  induction df as [|r df IH]; simpl; [reflexivity | ].
  now rewrite IH, where_scaled_row.
Qed.
End Columns.

End EnrichmentFacts.


(** ** Checks on concrete inputs *)

Example dim_date_first_row :
  nth_error dim_date 0 =
  Some (mkDimDate (Calendar.mkDate 2023 1 1) 20230101 2023 1 "Jan" 1 true).
Proof. vm_compute. reflexivity. Qed.

Example dim_date_leap_day :
  nth_error dim_date 424 =
  Some (mkDimDate (Calendar.mkDate 2024 2 29) 20240229 2024 2 "Feb" 1 false).
Proof. vm_compute. reflexivity. Qed.

Example ordinal_round_trip :
  forallb (fun d => Calendar.datetime_eqb
                      (Calendar.ord2ymd (Calendar.ymd2ord d)) d) dates = true.
Proof. vm_compute. reflexivity. Qed.

Example campaign_ids : map campaign_id dim_campaign = map Z.of_nat (seq 1 16).
Proof. vm_compute. reflexivity. Qed.

(** The slices of the two adjustments and the Organic rows are not empty:
    18 pairs x 31 days, 8 pairs x 31 days and 2 pairs x 456 days. *)
Example slice_sizes :
  length (filter is_spike df_skeleton) = (18 * 31)%nat /\
  length (filter is_effic df_skeleton) = (8 * 31)%nat /\
  length (filter (is_channel "Organic") df_skeleton) = (2 * 456)%nat.
Proof. repeat split; vm_compute; reflexivity. Qed.

Example round2_ties_to_even :
  round2 0.125 == 0.12 /\ round2 0.135 == 0.14 /\ round2 7.5 == 7.5.
Proof. repeat split; vm_compute; reflexivity. Qed.

Example trunc_toward_zero :
  trunc 15.3125 = 15%Z /\ trunc (- 15.3125) = (-15)%Z.
Proof. split; vm_compute; reflexivity. Qed.

Example mask_assign_wrong_size :
  mask_assign [1; 2; 3] [true; false; true] [9] = None /\
  mask_assign [1; 2; 3] [true; false; true] [9; 8] = Some [9; 2; 8].
Proof. split; reflexivity. Qed.

Example sample_master_kpis :
  Enrichment.CPM sample_master =
    [Enrichment.Num (7.50 / 4375 * 1000); Enrichment.Num 0;
     Enrichment.Num (0 / 10 * 1000)] /\
  Enrichment.CPC sample_master =
    [Enrichment.Num (7.50 / 15); Enrichment.Num 0; Enrichment.Num 0] /\
  Enrichment.div_cols (Enrichment.col_spend sample_master)
                      (as_float (Enrichment.col_clicks sample_master)) =
    [Enrichment.Num (7.50 / 15); Enrichment.NaN; Enrichment.NaN].
Proof. repeat split; reflexivity. Qed.

(* ================================================================== *)
(** * Further properties of the generator *)

(** ** The channel of a row and the ranges of its draws *)

Lemma dim_source_channels :
  Forall (fun s => known_channel (channel s)) dim_source.
Proof. unfold known_channel. repeat constructor; tauto. Qed.

Lemma skeleton_known_channel (s : Skel) :
  In s df_skeleton -> known_channel (sk_channel s).
Proof.
  intro H. destruct (skeleton_row s H) as (_ & Hs & _).
  exact (proj1 (Forall_forall _ _) dim_source_channels _ Hs).
Qed.

Lemma generates_rows_in (U : Q -> Prop) (P : Row -> Prop) (g : Rng) :
  samples_in U g ->
  (forall r, In (r_skel r) df_skeleton -> row_spec U r -> P r) ->
  generates g (fun out => Forall P (rows out)).
Proof.
  intros Hg H. eapply generates_impl; [apply (generate_spec U g Hg) | ].
  intros out (_ & _ & _ & Edf & _ & _ & F).
  apply Forall_forall. intros r Hr. apply H.
  - rewrite <- Edf. now apply rows_skel_in.
  - exact (proj1 (Forall_forall _ _) F r Hr).
Qed.

Lemma by_channel_at (P1 P2 P3 P4 : Q -> Prop) (s : Skel) (x : Q) :
  by_channel P1 P2 P3 P4 s x ->
  (sk_channel s = "Programmatic"%string -> P1 x) /\
  (sk_channel s = "Paid Search"%string -> P2 x) /\
  (sk_channel s = "Paid Social"%string -> P3 x) /\
  (sk_channel s = "Organic"%string -> P4 x).
Proof.
  unfold by_channel, is_channel. intro H.
  repeat split; intro E; rewrite E in H; exact H.
Qed.

Lemma int_draw_in (low high : Z) (x : Q) :
  (low < high)%Z -> int_draw unit_interval low high x ->
  exists k, x = inject_Z k /\ (low <= k < high)%Z.
Proof. apply int_draw_range. Qed.

Lemma row_in_ranges (r : Row) :
  row_spec unit_interval r ->
  (r_channel r = "Programmatic"%string ->
   in_ranges r 5000 15000 0.003 0.007 0.30 0.90) /\
  (r_channel r = "Paid Search"%string ->
   in_ranges r 300 1200 0.08 0.12 2.50 6.00) /\
  (r_channel r = "Paid Social"%string ->
   in_ranges r 1000 4000 0.015 0.035 1.50 3.50) /\
  (r_channel r = "Organic"%string ->
   in_ranges r 1000 3000 0.05 0.08 0 0).
Proof.
  intro S. unfold r_channel, in_ranges.
  destruct (by_channel_at _ _ _ _ _ _ (rs_base _ _ S)) as (B1 & B2 & B3 & B4).
  destruct (by_channel_at _ _ _ _ _ _ (rs_ctr _ _ S)) as (C1 & C2 & C3 & C4).
  destruct (by_channel_at _ _ _ _ _ _ (rs_cpc_drawn _ _ S))
    as (P1 & P2 & P3 & P4).
  split; [ | split; [ | split]]; intro E; (split; [ | split]);
    try (apply int_draw_in; [lia | solve [auto]]);
    try (apply unif_draw_range; [lra | solve [auto]]).
  pose proof (P4 E) as H. cbv beta in H. rewrite H. split; lra.
Qed.

(** X1: the channel-specific distributions. *)
Theorem channel_distributions (g : Rng) :
  unit_samples g ->
  generates g (fun out =>
    Forall (fun r =>
      known_channel (r_channel r) /\
      (r_channel r = "Programmatic"%string ->
       in_ranges r 5000 15000 0.003 0.007 0.30 0.90) /\
      (r_channel r = "Paid Search"%string ->
       in_ranges r 300 1200 0.08 0.12 2.50 6.00) /\
      (r_channel r = "Paid Social"%string ->
       in_ranges r 1000 4000 0.015 0.035 1.50 3.50) /\
      (r_channel r = "Organic"%string ->
       in_ranges r 1000 3000 0.05 0.08 0 0))
    (rows out)).
Proof.
  intro Hg. apply (generates_rows_in unit_interval); [exact Hg | ].
  intros r Hin S. split.
  - now apply skeleton_known_channel.
  - now apply row_in_ranges.
Qed.
(** ** Tighter bounds on the metrics of a row *)

Lemma trunc_ge (x : Q) (n : Z) :
  0 <= x -> inject_Z n <= x -> (n <= trunc x)%Z.
Proof.
  intros H0 H. rewrite trunc_floor by exact H0.
  rewrite <- (Qfloor_Z n). now apply Qfloor_resp_le.
Qed.

Lemma trunc_le_floor (x c : Q) :
  0 <= x -> x <= c -> (trunc x <= Qfloor c)%Z.
Proof.
  intros H0 H. rewrite trunc_floor by exact H0. now apply Qfloor_resp_le.
Qed.

Lemma inject_Z_between (lo hi k : Z) :
  (lo <= k < hi)%Z ->
  inject_Z lo <= inject_Z k /\ inject_Z k <= inject_Z (hi - 1).
Proof. intro H. rewrite <- !Zle_Qle. lia. Qed.

Lemma Qle_scaled_Z (a b c d : Z) :
  inject_Z a * inject_Z c <= inject_Z b * inject_Z d -> (a * c <= b * d)%Z.
Proof. rewrite <- !inject_Z_mult, <- Zle_Qle. auto. Qed.

Lemma Qlt_scaled_Z (a b c d : Z) :
  inject_Z a * inject_Z c < inject_Z b * inject_Z d -> (a * c < b * d)%Z.
Proof. rewrite <- !inject_Z_mult, <- Zlt_Qlt. auto. Qed.

(** The four channels, with the ranges of the draws as rational bounds. *)
Lemma row_channel_cases (r : Row) :
  row_spec unit_interval r -> known_channel (r_channel r) ->
  (r_channel r = "Programmatic"%string /\
   (5000 <= r_base_imps r /\ r_base_imps r <= 14999) /\
   (0.003 <= r_ctr r /\ r_ctr r <= 0.007) /\
   (0.30 <= r_cpc_drawn r /\ r_cpc_drawn r <= 0.90)) \/
  (r_channel r = "Paid Search"%string /\
   (300 <= r_base_imps r /\ r_base_imps r <= 1199) /\
   (0.08 <= r_ctr r /\ r_ctr r <= 0.12) /\
   (2.50 <= r_cpc_drawn r /\ r_cpc_drawn r <= 6.00)) \/
  (r_channel r = "Paid Social"%string /\
   (1000 <= r_base_imps r /\ r_base_imps r <= 3999) /\
   (0.015 <= r_ctr r /\ r_ctr r <= 0.035) /\
   (1.50 <= r_cpc_drawn r /\ r_cpc_drawn r <= 3.50)) \/
  (r_channel r = "Organic"%string /\
   (1000 <= r_base_imps r /\ r_base_imps r <= 2999) /\
   (0.05 <= r_ctr r /\ r_ctr r <= 0.08) /\
   (0 <= r_cpc_drawn r /\ r_cpc_drawn r <= 0)).
Proof.
  intros S K. destruct (row_in_ranges r S) as (R1 & R2 & R3 & R4).
  destruct K as [E | [E | [E | E]]];
    [ left; destruct (R1 E) as ((k & Hb & Hk) & HC & HP)
    | right; left; destruct (R2 E) as ((k & Hb & Hk) & HC & HP)
    | right; right; left; destruct (R3 E) as ((k & Hb & Hk) & HC & HP)
    | right; right; right; destruct (R4 E) as ((k & Hb & Hk) & HC & HP) ];
    (split; [exact E | ]; split; [ | split; assumption]);
    rewrite Hb; apply inject_Z_between in Hk; exact Hk.
Qed.

Section RowTightBounds.
Variable r : Row.
Hypothesis S : row_spec unit_interval r.
Hypothesis K : known_channel (r_channel r).

(** Impressions before truncation, from bounds on the base draw. *)
Lemma row_final_between (L U : Q) :
  0 <= L -> L <= r_base_imps r -> r_base_imps r <= U ->
  L * 0.7 <= r_final_imps r /\ r_final_imps r <= U * 3.3 /\
  (is_spike (r_skel r) = false -> r_final_imps r <= U * 1.1) /\
  (is_spike (r_skel r) = true -> L * 2.1 <= r_final_imps r).
Proof.
  intros H0 HL HU.
  rewrite (rs_final _ _ S), (rs_seasonal _ _ S), (rs_seasonality _ _ S).
  destruct (sk_is_weekend (r_skel r)), (is_spike (r_skel r));
    (split; [lra | split; [lra | split; intro E; try discriminate E; lra]]).
Qed.

Lemma row_base_global : 300 <= r_base_imps r /\ r_base_imps r <= 14999.
Proof.
  destruct (row_channel_cases r S K)
    as [(_ & (HL & HU) & _) | [(_ & (HL & HU) & _)
       | [(_ & (HL & HU) & _) | (_ & (HL & HU) & _)]]]; split; lra.
Qed.

Lemma row_impressions_global : (210 <= r_impressions r <= 49496)%Z.
Proof.
  pose proof (row_final_imps_nonneg r S) as H0.
  rewrite (rs_impressions _ _ S).
  destruct row_base_global as [HL HU].
  destruct (row_final_between 300 14999 ltac:(lra) HL HU) as (F1 & F2 & _).
  split.
  - apply trunc_ge; [exact H0 | ]. change (inject_Z 210) with 210. lra.
  - apply (trunc_le_floor _ (14999 * 3.3)); [exact H0 | exact F2].
Qed.

(** A lower bound on impressions and on CTR that holds in the channel of the
    row, with product at least 10. *)
Lemma row_clicks_factors :
  exists (i : Z) (c : Q),
    (i <= r_impressions r)%Z /\ c <= r_ctr r /\
    (0 <= i)%Z /\ 0 <= c /\ 10 <= inject_Z i * c.
Proof.
  pose proof (row_final_imps_nonneg r S) as H0.
  destruct (row_channel_cases r S K)
    as [(_ & (HL & HU) & (CL & _) & _) | [(_ & (HL & HU) & (CL & _) & _)
       | [(_ & (HL & HU) & (CL & _) & _) | (_ & (HL & HU) & (CL & _) & _)]]].
  - destruct (row_final_between 5000 14999 ltac:(lra) HL HU) as (F1 & _).
    exists 3500%Z, 0.003. rewrite (rs_impressions _ _ S).
    split; [apply trunc_ge; [exact H0 | unfold inject_Z; lra] | ].
    split; [lra | split; [lia | split; [lra | unfold inject_Z; lra]]].
  - destruct (row_final_between 300 1199 ltac:(lra) HL HU) as (F1 & _).
    exists 210%Z, 0.08. rewrite (rs_impressions _ _ S).
    split; [apply trunc_ge; [exact H0 | unfold inject_Z; lra] | ].
    split; [lra | split; [lia | split; [lra | unfold inject_Z; lra]]].
  - destruct (row_final_between 1000 3999 ltac:(lra) HL HU) as (F1 & _).
    exists 700%Z, 0.015. rewrite (rs_impressions _ _ S).
    split; [apply trunc_ge; [exact H0 | unfold inject_Z; lra] | ].
    split; [lra | split; [lia | split; [lra | unfold inject_Z; lra]]].
  - destruct (row_final_between 1000 2999 ltac:(lra) HL HU) as (F1 & _).
    exists 700%Z, 0.05. rewrite (rs_impressions _ _ S).
    split; [apply trunc_ge; [exact H0 | unfold inject_Z; lra] | ].
    split; [lra | split; [lia | split; [lra | unfold inject_Z; lra]]].
Qed.

Lemma row_ctr_global : 0.003 <= r_ctr r /\ r_ctr r <= 0.12.
Proof.
  destruct (row_channel_cases r S K)
    as [(_ & _ & (CL & CU) & _) | [(_ & _ & (CL & CU) & _)
       | [(_ & _ & (CL & CU) & _) | (_ & _ & (CL & CU) & _)]]]; split; lra.
Qed.

Lemma row_clicks_tight :
  (10 <= r_clicks r)%Z /\ (100 * r_clicks r <= 12 * r_impressions r)%Z.
Proof.
  destruct row_clicks_factors as (i & c & Hi & Hc & Hi0 & Hc0 & Hp).
  pose proof (inject_Z_nonneg _ (row_impressions_nonneg r S)) as Him.
  destruct (row_clicks_product r S) as [P0 P1].
  destruct row_ctr_global as [_ CU].
  assert (Hii : inject_Z i <= inject_Z (r_impressions r))
    by (now rewrite <- Zle_Qle).
  pose proof (inject_Z_nonneg _ Hi0) as Hi0'.
  split.
  - rewrite (rs_clicks _ _ S). apply trunc_ge; [exact P0 | ].
    change (inject_Z 10) with 10. nra.
  - apply (Qle_scaled_Z 100 12 (r_clicks r) (r_impressions r)).
    pose proof (trunc_below _ P0) as Hb. rewrite <- (rs_clicks _ _ S) in Hb.
    change (inject_Z 100) with 100. change (inject_Z 12) with 12. nra.
Qed.
End RowTightBounds.

Lemma not_spike_off_programmatic (r : Row) :
  r_channel r <> "Programmatic"%string -> is_spike (r_skel r) = false.
Proof.
  intro H. apply not_true_false. intro E. apply is_spike_slice in E.
  destruct E as [E _]. contradiction.
Qed.

Lemma not_effic_off_search (r : Row) :
  r_channel r <> "Paid Search"%string -> is_effic (r_skel r) = false.
Proof.
  intro H. apply not_true_false. intro E. apply is_effic_slice in E.
  destruct E as [E _]. contradiction.
Qed.

(** Impressions of a row from bounds on its base draw. *)
Lemma row_impressions_between (r : Row) (L U : Q) (lo hi : Z) :
  row_spec unit_interval r ->
  0 <= L -> L <= r_base_imps r -> r_base_imps r <= U ->
  inject_Z lo <= L * 0.7 -> (Qfloor (U * 1.1) <= hi)%Z ->
  is_spike (r_skel r) = false ->
  (lo <= r_impressions r <= hi)%Z.
Proof.
  intros S H0 HL HU Hlo Hhi Hs.
  pose proof (row_final_imps_nonneg r S) as F0.
  destruct (row_final_between r S L U H0 HL HU) as (F1 & _ & F3 & _).
  rewrite (rs_impressions _ _ S). split.
  - apply trunc_ge; [exact F0 | lra].
  - eapply Z.le_trans; [ | exact Hhi].
    apply trunc_le_floor; [exact F0 | auto].
Qed.

Lemma row_impressions_by_channel (r : Row) :
  row_spec unit_interval r -> known_channel (r_channel r) ->
  (r_channel r = "Programmatic"%string ->
   (august_spike_slice r -> (10500 <= r_impressions r <= 49496)%Z) /\
   (~ august_spike_slice r -> (3500 <= r_impressions r <= 16498)%Z)) /\
  (r_channel r = "Paid Search"%string ->
   (210 <= r_impressions r <= 1318)%Z) /\
  (r_channel r = "Paid Social"%string ->
   (700 <= r_impressions r <= 4398)%Z) /\
  (r_channel r = "Organic"%string ->
   (700 <= r_impressions r <= 3298)%Z).
Proof.
  intros S K.
  pose proof (row_final_imps_nonneg r S) as F0.
  destruct (row_channel_cases r S K)
    as [(E & (HL & HU) & _) | [(E & (HL & HU) & _)
       | [(E & (HL & HU) & _) | (E & (HL & HU) & _)]]];
    (split; [ | split; [ | split]]); intro E'; rewrite E in E';
    try discriminate E'.
  - destruct (row_final_between r S 5000 14999 ltac:(lra) HL HU)
      as (F1 & F2 & F3 & F4).
    split; intro H.
    + apply is_spike_slice in H. specialize (F4 H).
      rewrite (rs_impressions _ _ S). split.
      * apply trunc_ge; [exact F0 | unfold inject_Z; lra].
      * apply (trunc_le_floor _ (14999 * 3.3)); [exact F0 | exact F2].
    + rewrite <- is_spike_slice in H. apply not_true_false in H.
      apply (row_impressions_between r 5000 14999); auto;
        try lra; try (unfold inject_Z; lra). vm_compute. discriminate.
  - apply (row_impressions_between r 300 1199); auto;
      try lra; try (unfold inject_Z; lra).
    + vm_compute. discriminate.
    + apply not_spike_off_programmatic. rewrite E. discriminate.
  - apply (row_impressions_between r 1000 3999); auto;
      try lra; try (unfold inject_Z; lra).
    + vm_compute. discriminate.
    + apply not_spike_off_programmatic. rewrite E. discriminate.
  - apply (row_impressions_between r 1000 2999); auto;
      try lra; try (unfold inject_Z; lra).
    + vm_compute. discriminate.
    + apply not_spike_off_programmatic. rewrite E. discriminate.
Qed.

Lemma row_cpc_between (r : Row) :
  row_spec unit_interval r -> known_channel (r_channel r) ->
  (r_channel r <> "Organic"%string -> 0.21 <= r_cpc r) /\ r_cpc r <= 6.
Proof.
  intros S K. rewrite (rs_cpc _ _ S).
  destruct (row_channel_cases r S K)
    as [(E & _ & _ & (PL & PU)) | [(E & _ & _ & (PL & PU))
       | [(E & _ & _ & (PL & PU)) | (E & _ & _ & (PL & PU))]]];
    (split; [intro H; try (exfalso; apply H; exact E) | ]);
    destruct (is_effic (r_skel r)); lra.
Qed.

Lemma row_spend_tight (r : Row) :
  row_spec unit_interval r -> known_channel (r_channel r) ->
  (r_channel r <> "Organic"%string -> 2 <= r_spend r) /\
  r_spend r <= inject_Z (r_clicks r) * 6 + (1 # 200).
Proof.
  intros S K.
  destruct (row_cpc_between r S K) as [PL PU].
  destruct (row_clicks_tight r S K) as [C10 _].
  assert (Hc : 10 <= inject_Z (r_clicks r))
    by (change 10 with (inject_Z 10); now rewrite <- Zle_Qle).
  pose proof (row_cpc_nonneg r S) as P0.
  destruct (round2_close (inject_Z (r_clicks r) * r_cpc r)) as [RL RU].
  rewrite <- (rs_spend _ _ S) in RL, RU.
  split; [intro H; specialize (PL H) | ]; nra.
Qed.

Lemma row_conversions_tight (r : Row) :
  row_spec unit_interval r ->
  (0 <= r_conversions r)%Z /\
  (100 * r_conversions r <= 15 * r_clicks r)%Z /\
  (1 * r_clicks r < 20 * (r_conversions r + 1))%Z.
Proof.
  intro S.
  destruct (row_conversions_range r S) as [V0 _].
  destruct (row_conversions_product r S) as [P0 _].
  destruct (row_conv_rate_range r S) as [R0 R1].
  pose proof (inject_Z_nonneg _ (proj1 (row_clicks_range r S))) as Hc.
  pose proof (trunc_below _ P0) as Hb. pose proof (trunc_above _ P0) as Ha.
  rewrite <- (rs_conversions _ _ S) in Hb, Ha.
  split; [exact V0 | split].
  - apply Qle_scaled_Z. change (inject_Z 100) with 100.
    change (inject_Z 15) with 15. nra.
  - apply Qlt_scaled_Z. rewrite inject_Z_plus.
    change (inject_Z 1) with 1. change (inject_Z 20) with 20. nra.
Qed.

Lemma row_video_tight (r : Row) :
  row_spec unit_interval r -> known_channel (r_channel r) ->
  (video_slice r ->
   (224 <= r_video_views r)%Z /\
   (100 * r_video_views r <= 48 * r_impressions r)%Z /\
   (32 * r_impressions r < 100 * (r_video_views r + 1))%Z) /\
  (~ video_slice r -> r_video_views r = 0%Z).
Proof.
  intros S K.
  pose proof (rs_video _ _ S) as Hvid. unfold video_spec in Hvid.
  split; intro H.
  - assert (Hi : (700 <= r_impressions r)%Z).
    { destruct (row_impressions_by_channel r S K) as (I1 & _ & I3 & _).
      destruct H as [E | E].
      - destruct (I1 E) as [A B].
        destruct (is_spike (r_skel r)) eqn:Es.
        + apply is_spike_slice in Es. specialize (A Es). lia.
        + assert (N : ~ august_spike_slice r)
            by (rewrite <- is_spike_slice, Es; discriminate).
          specialize (B N). lia.
      - specialize (I3 E). lia. }
    assert (Hq : 700 <= inject_Z (r_impressions r))
      by (change 700 with (inject_Z 700); now rewrite <- Zle_Qle).
    apply channel_isin_slice in H. rewrite H in Hvid.
    destruct Hvid as [u [[Hu0 Hu1] E]]. unfold uniform_of in E.
    set (x := inject_Z (r_impressions r) * 0.40 * (0.8 + (1.2 - 0.8) * u)) in E.
    assert (X0 : 0 <= x) by (unfold x; nra).
    pose proof (trunc_below _ X0) as Hb. pose proof (trunc_above _ X0) as Ha.
    rewrite <- E in Hb, Ha.
    split; [ | split].
    + rewrite E. apply trunc_ge; [exact X0 | ].
      change (inject_Z 224) with 224. unfold x. nra.
    + apply Qle_scaled_Z. change (inject_Z 100) with 100.
      change (inject_Z 48) with 48. unfold x in Hb. nra.
    + apply Qlt_scaled_Z. rewrite inject_Z_plus.
      change (inject_Z 1) with 1. change (inject_Z 100) with 100.
      change (inject_Z 32) with 32. unfold x in Ha. nra.
  - rewrite <- channel_isin_slice in H. apply not_true_false in H.
    rewrite H in Hvid. exact Hvid.
Qed.

Lemma generates_fact_rows_in (U : Q -> Prop) (P : FactRow -> Prop) (g : Rng) :
  samples_in U g ->
  (forall r, In (r_skel r) df_skeleton -> row_spec U r -> P (fact_of_row r)) ->
  generates g (fun out => Forall P (out_fact out)).
Proof.
  intros Hg H. eapply generates_impl; [apply (generate_spec U g Hg) | ].
  intros out (_ & _ & _ & Edf & _ & E & F). rewrite E.
  apply Forall_map, Forall_forall. intros r Hr. apply H.
  - rewrite <- Edf. now apply rows_skel_in.
  - exact (proj1 (Forall_forall _ _) F r Hr).
Qed.

Lemma unit_samples_half : unit_samples rng_half.
Proof.
  intro k. unfold unit_interval, rng_half, Qle, Qlt. simpl. lia.
Defined.

Lemma channel_distributions_witness :
  unit_samples rng_half /\
  generates rng_half (fun out =>
    Forall (fun r =>
      known_channel (r_channel r) /\
      (r_channel r = "Programmatic"%string ->
       in_ranges r 5000 15000 0.003 0.007 0.30 0.90) /\
      (r_channel r = "Paid Search"%string ->
       in_ranges r 300 1200 0.08 0.12 2.50 6.00) /\
      (r_channel r = "Paid Social"%string ->
       in_ranges r 1000 4000 0.015 0.035 1.50 3.50) /\
      (r_channel r = "Organic"%string ->
       in_ranges r 1000 3000 0.05 0.08 0 0))
    (rows out)).
Proof.
  split; [exact unit_samples_half | ].
  apply (channel_distributions rng_half). exact unit_samples_half.
Defined.

(** X2: the range of the impressions column, channel by channel; in the
    Programmatic rows the August 2023 slice lies three times higher. *)
Theorem impressions_by_channel (g : Rng) :
  unit_samples g ->
  generates g (fun out =>
    Forall (fun r =>
      (r_channel r = "Programmatic"%string ->
       (august_spike_slice r -> (10500 <= r_impressions r <= 49496)%Z) /\
       (~ august_spike_slice r -> (3500 <= r_impressions r <= 16498)%Z)) /\
      (r_channel r = "Paid Search"%string ->
       (210 <= r_impressions r <= 1318)%Z) /\
      (r_channel r = "Paid Social"%string ->
       (700 <= r_impressions r <= 4398)%Z) /\
      (r_channel r = "Organic"%string ->
       (700 <= r_impressions r <= 3298)%Z))
    (rows out)).
Proof.
  intro Hg. apply (generates_rows_in unit_interval); [exact Hg | ].
  intros r Hin S. apply row_impressions_by_channel; [exact S | ].
  now apply skeleton_known_channel.
Qed.

Lemma impressions_by_channel_witness :
  unit_samples rng_half /\
  generates rng_half (fun out =>
    Forall (fun r =>
      (r_channel r = "Programmatic"%string ->
       (august_spike_slice r -> (10500 <= r_impressions r <= 49496)%Z) /\
       (~ august_spike_slice r -> (3500 <= r_impressions r <= 16498)%Z)) /\
      (r_channel r = "Paid Search"%string ->
       (210 <= r_impressions r <= 1318)%Z) /\
      (r_channel r = "Paid Social"%string ->
       (700 <= r_impressions r <= 4398)%Z) /\
      (r_channel r = "Organic"%string ->
       (700 <= r_impressions r <= 3298)%Z))
    (rows out)).
Proof.
  split; [exact unit_samples_half | ].
  apply (impressions_by_channel rng_half). exact unit_samples_half.
Defined.

(** X3: every exported row has at least 210 impressions and at least 10
    clicks, and clicks are at most 12% of impressions. *)
Theorem impressions_and_clicks_positive (g : Rng) :
  unit_samples g ->
  generates g (fun out =>
    Forall (fun f =>
      (210 <= f_impressions f <= 49496)%Z /\
      (10 <= f_clicks f)%Z /\
      (100 * f_clicks f <= 12 * f_impressions f)%Z)
    (out_fact out)).
Proof.
  intro Hg. apply (generates_fact_rows_in unit_interval); [exact Hg | ].
  intros r Hin S. cbn [fact_of_row f_impressions f_clicks].
  pose proof (skeleton_known_channel _ Hin) as K.
  split; [now apply row_impressions_global | now apply row_clicks_tight].
Qed.

Lemma impressions_and_clicks_positive_witness :
  unit_samples rng_half /\
  generates rng_half (fun out =>
    Forall (fun f =>
      (210 <= f_impressions f <= 49496)%Z /\
      (10 <= f_clicks f)%Z /\
      (100 * f_clicks f <= 12 * f_impressions f)%Z)
    (out_fact out)).
Proof.
  split; [exact unit_samples_half | ].
  apply (impressions_and_clicks_positive rng_half). exact unit_samples_half.
Defined.

(** X4: spend is at least 2 in every row outside Organic, and never more
    than 6 per click (up to the rounding). *)
Theorem spend_positive_off_organic (g : Rng) :
  unit_samples g ->
  generates g (fun out =>
    Forall (fun r =>
      (r_channel r <> "Organic"%string -> 2 <= r_spend r) /\
      r_spend r <= inject_Z (r_clicks r) * 6 + (1 # 200))
    (rows out)).
Proof.
  intro Hg. apply (generates_rows_in unit_interval); [exact Hg | ].
  intros r Hin S. apply row_spend_tight; [exact S | ].
  now apply skeleton_known_channel.
Qed.

Lemma spend_positive_off_organic_witness :
  unit_samples rng_half /\
  generates rng_half (fun out =>
    Forall (fun r =>
      (r_channel r <> "Organic"%string -> 2 <= r_spend r) /\
      r_spend r <= inject_Z (r_clicks r) * 6 + (1 # 200))
    (rows out)).
Proof.
  split; [exact unit_samples_half | ].
  apply (spend_positive_off_organic rng_half). exact unit_samples_half.
Defined.

(** X5: conversions are between 5% and 15% of clicks, up to the
    truncation: 100 x conversions <= 15 x clicks and
    clicks < 20 x (conversions + 1). *)
Theorem conversions_share_of_clicks (g : Rng) :
  unit_samples g ->
  generates g (fun out =>
    Forall (fun f =>
      (0 <= f_conversions f)%Z /\
      (100 * f_conversions f <= 15 * f_clicks f)%Z /\
      (1 * f_clicks f < 20 * (f_conversions f + 1))%Z)
    (out_fact out)).
Proof.
  intro Hg. apply (generates_fact_rows unit_interval); [exact Hg | ].
  intros r S. cbn [fact_of_row f_conversions f_clicks].
  now apply row_conversions_tight.
Qed.

Lemma conversions_share_of_clicks_witness :
  unit_samples rng_half /\
  generates rng_half (fun out =>
    Forall (fun f =>
      (0 <= f_conversions f)%Z /\
      (100 * f_conversions f <= 15 * f_clicks f)%Z /\
      (1 * f_clicks f < 20 * (f_conversions f + 1))%Z)
    (out_fact out)).
Proof.
  split; [exact unit_samples_half | ].
  apply (conversions_share_of_clicks rng_half). exact unit_samples_half.
Defined.

(** X6: in the Programmatic and Paid Social rows video views are at least
    224 and between 32% and 48% of impressions, up to the truncation; in
    every other row they are 0. *)
Theorem video_views_share_of_impressions (g : Rng) :
  unit_samples g ->
  generates g (fun out =>
    Forall (fun r =>
      (video_slice r ->
       (224 <= r_video_views r)%Z /\
       (100 * r_video_views r <= 48 * r_impressions r)%Z /\
       (32 * r_impressions r < 100 * (r_video_views r + 1))%Z) /\
      (~ video_slice r -> r_video_views r = 0%Z))
    (rows out)).
Proof.
  intro Hg. apply (generates_rows_in unit_interval); [exact Hg | ].
  intros r Hin S. apply row_video_tight; [exact S | ].
  now apply skeleton_known_channel.
Qed.

Lemma video_views_share_of_impressions_witness :
  unit_samples rng_half /\
  generates rng_half (fun out =>
    Forall (fun r =>
      (video_slice r ->
       (224 <= r_video_views r)%Z /\
       (100 * r_video_views r <= 48 * r_impressions r)%Z /\
       (32 * r_impressions r < 100 * (r_video_views r + 1))%Z) /\
      (~ video_slice r -> r_video_views r = 0%Z))
    (rows out)).
Proof.
  split; [exact unit_samples_half | ].
  apply (video_views_share_of_impressions rng_half). exact unit_samples_half.
Defined.

(** ** Keys of the tables *)

Lemma nodupb_NoDup (l : list Z) : nodupb l = true -> NoDup l.
Proof.
  induction l as [|x t IH]; simpl; intro H; constructor.
  - apply andb_true_iff in H. destruct H as [H _].
    apply negb_true_iff in H. intro Hin.
    assert (E : existsb (Z.eqb x) t = true)
      by (apply existsb_exists; exists x; split; [exact Hin | apply Z.eqb_refl]).
    congruence.
  - apply IH. apply andb_true_iff in H. tauto.
Qed.

Lemma dimension_keys_unique :
  NoDup (map campaign_id dim_campaign) /\
  NoDup (map source_id dim_source) /\
  NoDup (map dd_date_key dim_date).
Proof.
  repeat split; apply nodupb_NoDup; vm_compute; reflexivity.
Qed.

Lemma NoDup_map_filter {A K} (k : A -> K) (f : A -> bool) (l : list A) :
  NoDup (map k l) -> NoDup (map k (filter f l)).
Proof.
  induction l as [|a l IH]; simpl; intro H; [constructor | ].
  inversion H as [|x t Hn Ht]; subst.
  destruct (f a); simpl; [ | auto].
  constructor; [ | auto].
  intro Hin. apply Hn. apply in_map_iff in Hin.
  destruct Hin as [b [E Hb]]. apply filter_In in Hb.
  apply in_map_iff. exists b. tauto.
Qed.

(** Rows built from a left row and a selection of right rows have distinct
    keys when the left keys are distinct and so are the right keys of each
    selection. *)
Lemma NoDup_flat_map_keys {A B C KA KB}
    (mk : A -> B -> C) (ka : A -> KA) (kb : B -> KB) (kc : C -> KA * KB)
    (sel : A -> list B) (l : list A) :
  (forall a b, kc (mk a b) = (ka a, kb b)) ->
  NoDup (map ka l) ->
  (forall a, NoDup (map kb (sel a))) ->
  NoDup (map kc (flat_map (fun a => map (mk a) (sel a)) l)).
Proof.
  intros Hk Hl Hs. induction l as [|a l IH]; simpl; [constructor | ].
  inversion Hl as [|x t Hn Ht]; subst.
  rewrite map_app. apply NoDup_app.
  - rewrite map_map. specialize (Hs a).
    induction (sel a) as [|b bs IHb]; simpl; [constructor | ].
    inversion Hs as [|y u Hn' Hu]; subst. constructor; [ | auto].
    intro Hin. apply Hn'. apply in_map_iff in Hin.
    destruct Hin as [b' [E Hb']]. rewrite !Hk in E.
    apply in_map_iff. exists b'. split; [congruence | exact Hb'].
  - auto.
  - intros c Hc1 Hc2. apply Hn.
    apply in_map_iff in Hc1. destruct Hc1 as [c1 [E1 Hc1]].
    apply in_map_iff in Hc1. destruct Hc1 as [b [Eb _]]. subst c1.
    rewrite Hk in E1. subst c.
    apply in_map_iff in Hc2. destruct Hc2 as [c2 [E2 Hc2]].
    apply in_flat_map in Hc2. destruct Hc2 as [a' [Ha' Hc2]].
    apply in_map_iff in Hc2. destruct Hc2 as [b' [Eb' _]]. subst c2.
    rewrite Hk in E2. apply in_map_iff. exists a'.
    split; [congruence | exact Ha'].
Qed.

Lemma schema_link_keys_unique : NoDup (map link_key schema_link).
Proof.
  destruct dimension_keys_unique as (Hc & Hs & _).
  unfold schema_link, merge_on.
  apply (NoDup_flat_map_keys mkLink campaign_id source_id link_key);
    [reflexivity | exact Hc | ].
  intro a. now apply NoDup_map_filter.
Qed.

Lemma skeleton_keys_unique : NoDup (map skel_key df_skeleton).
Proof.
  destruct dimension_keys_unique as (_ & _ & Hd).
  unfold df_skeleton, merge_cross.
  apply (NoDup_flat_map_keys mkSkel link_key dc_date_key skel_key);
    [reflexivity | exact schema_link_keys_unique | ].
  intros _. rewrite map_map. exact Hd.
Qed.

Lemma NoDup_map_injective {A B} (f : A -> B) (l : list A) :
  (forall x y, f x = f y -> x = y) -> NoDup l -> NoDup (map f l).
Proof.
  intros Hf H. induction H as [|x l Hn _ IH]; simpl; constructor; [ | exact IH].
  intro Hin. apply in_map_iff in Hin. destruct Hin as [y [E Hy]].
  apply Hf in E. subst y. contradiction.
Qed.

Lemma map_nth_seq {A B} (f : A -> B) (l : list A) (d : A) :
  map (fun i => f (nth i l d)) (seq 0 (length l)) = map f l.
Proof.
  induction l as [|a l IH]; simpl; [reflexivity | ].
  f_equal. rewrite seq_shift_map. exact IH.
Qed.

Lemma rows_skeleton (out : StarSchema) :
  map r_skel (rows out) = out_df_fact out.
Proof.
  unfold rows, rows_of. rewrite map_map.
  transitivity (map (fun s : Skel => s) (out_df_fact out));
    [ | apply map_id].
  exact (map_nth_seq (fun s => s) (out_df_fact out) no_skel).
Qed.

Lemma generates_fact_skeleton (g : Rng) :
  generates g (fun out =>
    out_fact out = map fact_of_row (rows out) /\
    map r_skel (rows out) = df_skeleton).
Proof.
  eapply generates_impl; [apply (generate_spec any_sample g), any_samples | ].
  intros out (_ & _ & _ & Edf & _ & E & _).
  split; [exact E | ]. now rewrite rows_skeleton.
Qed.

(** X7: the grain of the fact table. *)
Theorem fact_grain_unique (g : Rng) :
  generates g (fun out => NoDup (map fact_key (out_fact out))).
Proof.
  eapply generates_impl; [apply generates_fact_skeleton | ].
  intros out [E Es]. rewrite E, map_map.
  assert (H : map (fun r => fact_key (fact_of_row r)) (rows out) =
              map (fun k : Z * Z * Z =>
                     (snd k, snd (fst k), fst (fst k)))
                  (map skel_key df_skeleton)).
  { rewrite <- Es, !map_map. reflexivity. }
  rewrite H. apply NoDup_map_injective; [ | exact skeleton_keys_unique].
  intros [[a b] c] [[a' b'] c'] Hk. cbn in Hk. congruence.
Qed.

(** ** The date columns of a fact row *)

Lemma find_unique {A} (k : A -> Z) (l : list A) (x : A) :
  NoDup (map k l) -> In x l -> find (fun y => (k y =? k x)%Z) l = Some x.
Proof.
  induction l as [|a l IH]; simpl; intros Hn Hin; [contradiction | ].
  inversion Hn as [|y t Hna Ht]; subst.
  destruct Hin as [-> | Hin].
  - now rewrite Z.eqb_refl.
  - destruct (k a =? k x)%Z eqn:E; [ | auto].
    apply Z.eqb_eq in E. exfalso. apply Hna. rewrite E. now apply in_map.
Qed.

Lemma find_date_key (d : DimDate) :
  In d dim_date -> find_date (dd_date_key d) = Some d.
Proof.
  intro H. unfold find_date.
  apply (find_unique dd_date_key); [ | exact H].
  apply dimension_keys_unique.
Qed.

Lemma dim_date_fields :
  Forall (fun d =>
            dd_date_key d =
              (dd_year d * 10000 + dd_month d * 100
               + Calendar.day (dd_date d))%Z /\
            (1 <= dd_month d <= 12)%Z /\
            (1 <= Calendar.day (dd_date d) <= 31)%Z)
         dim_date.
Proof.
  eapply Forall_impl;
    [ | apply (forallb_Forall
                 (fun d =>
                    (dd_date_key d =?
                     dd_year d * 10000 + dd_month d * 100
                     + Calendar.day (dd_date d))%Z
                    && ((1 <=? dd_month d) && (dd_month d <=? 12))%Z
                    && ((1 <=? Calendar.day (dd_date d))
                        && (Calendar.day (dd_date d) <=? 31))%Z)) ].
  - intros d H. rewrite !andb_true_iff, Z.eqb_eq, !Z.leb_le in H. lia.
  - vm_compute. reflexivity.
Qed.

Lemma skeleton_date (s : Skel) :
  In s df_skeleton ->
  exists d, In d dim_date /\ sk_date s = date_cols d /\
            find_date (sk_date_key s) = Some d.
Proof.
  intro H. destruct (skeleton_row s H) as (_ & _ & _ & d & Hd & E).
  exists d. split; [exact Hd | split; [exact E | ]].
  unfold sk_date_key. rewrite E. cbn [date_cols dc_date_key].
  now apply find_date_key.
Qed.

(** X8: the date columns that the masks and the seasonality read in a row of
    [df_fact] are those of the row of dim_date found under its date_key. *)
Theorem fact_date_attributes (g : Rng) :
  generates g (fun out =>
    Forall (fun r =>
      exists d,
        find_date (sk_date_key (r_skel r)) = Some d /\
        sk_is_weekend (r_skel r) = dd_is_weekend d /\
        sk_year (r_skel r) = dd_year d /\
        sk_month (r_skel r) = dd_month d /\
        r_seasonality r = (if dd_is_weekend d then 0.7 else 1.1))
    (rows out)).
Proof.
  apply (generates_rows_in any_sample); [apply any_samples | ].
  intros r Hin S. destruct (skeleton_date _ Hin) as (d & _ & E & F).
  exists d. split; [exact F | ].
  rewrite (rs_seasonality _ _ S).
  unfold sk_is_weekend, sk_year, sk_month. rewrite E.
  cbn [date_cols dc_is_weekend dc_year dc_month]. auto.
Qed.

Lemma skeleton_year_month (s : Skel) :
  In s df_skeleton ->
  forall y m : Z, (1 <= m <= 12)%Z ->
    (sk_year s = y /\ sk_month s = m <->
     (y * 10000 + m * 100 + 1 <= sk_date_key s <= y * 10000 + m * 100 + 31)%Z).
Proof.
  intros H y m Hm. destruct (skeleton_date _ H) as (d & Hd & E & _).
  pose proof (proj1 (Forall_forall _ _) dim_date_fields d Hd)
    as (K & M & Dy).
  unfold sk_year, sk_month, sk_date_key. rewrite E.
  cbn [date_cols dc_year dc_month dc_date_key]. rewrite K. lia.
Qed.

(** X9: the two slices, read off the exported date_key. *)
Theorem slices_by_date_key (g : Rng) :
  generates g (fun out =>
    Forall (fun r =>
      (august_spike_slice r <->
       r_channel r = "Programmatic"%string /\
       (20230801 <= sk_date_key (r_skel r) <= 20230831)%Z) /\
      (december_efficiency_slice r <->
       r_channel r = "Paid Search"%string /\
       (20231201 <= sk_date_key (r_skel r) <= 20231231)%Z))
    (rows out)).
Proof.
  apply (generates_rows_in any_sample); [apply any_samples | ].
  intros r Hin _. unfold august_spike_slice, december_efficiency_slice.
  pose proof (skeleton_year_month _ Hin 2023 8 ltac:(lia)) as A.
  pose proof (skeleton_year_month _ Hin 2023 12 ltac:(lia)) as D.
  cbn in A, D. tauto.
Qed.

(** ** The campaign dimension *)

Lemma tier_loop_step (name scope obj : string) (acc : list DimCampaign) (id : Z) :
  tier_loop name scope obj (acc, id) =
  (acc ++ [mkDimCampaign id name (name ++ "_Tier1") scope obj;
           mkDimCampaign (id + 1) name (name ++ "_Tier2") scope obj],
   (id + 2)%Z).
Proof.
  unfold tier_loop, tiers. cbn [fold_left].
  rewrite <- app_assoc. cbn [app]. f_equal. lia.
Qed.

Lemma campaign_loop_from (config : list (string * string * string))
    (acc : list DimCampaign) (id : Z) :
  fold_left (fun st '(name, scope, obj) => tier_loop name scope obj st)
            config (acc, id) =
  (acc ++ ad_sets_from id config, (id + 2 * Z.of_nat (length config))%Z).
Proof.
  revert acc id. induction config as [|[[name scope] obj] config IH];
    intros acc id.
  - cbn [fold_left ad_sets_from length]. rewrite app_nil_r. f_equal. lia.
  - cbn [fold_left ad_sets_from]. rewrite tier_loop_step, IH.
    rewrite <- app_assoc. cbn [app length]. f_equal. lia.
Qed.

Lemma campaign_rows_closed_form (config : list (string * string * string)) :
  campaign_rows_of config = ad_sets_from 1 config.
Proof.
  unfold campaign_rows_of. now rewrite campaign_loop_from.
Qed.

Lemma ad_sets_length (id : Z) (config : list (string * string * string)) :
  length (ad_sets_from id config) = (2 * length config)%nat.
Proof.
  revert id. induction config as [|[[n s] o] config IH]; intro id;
    cbn [ad_sets_from length]; [reflexivity | ].
  rewrite IH. lia.
Qed.

Lemma ad_sets_ids (id : Z) (config : list (string * string * string)) :
  map campaign_id (ad_sets_from id config) =
  map (fun i => (id + Z.of_nat i)%Z) (seq 0 (2 * length config)).
Proof.
  revert id. induction config as [|[[n s] o] config IH]; intro id;
    [reflexivity | ].
  replace (2 * length ((n, s, o) :: config))%nat
    with (S (S (2 * length config))) by (cbn [length]; lia).
  cbn [ad_sets_from map seq campaign_id].
  rewrite IH, <- !seq_shift, !map_map.
  f_equal; [f_equal; lia | ]. f_equal.
  apply map_ext. intro i. lia.
Qed.

Lemma ad_sets_nth (id : Z) (config : list (string * string * string))
    (k : nat) (name scope obj : string) :
  nth_error config k = Some (name, scope, obj) ->
  nth_error (ad_sets_from id config) (2 * k) =
    Some (mkDimCampaign (id + 2 * Z.of_nat k) name (name ++ "_Tier1")
                        scope obj) /\
  nth_error (ad_sets_from id config) (2 * k + 1) =
    Some (mkDimCampaign (id + 2 * Z.of_nat k + 1) name (name ++ "_Tier2")
                        scope obj).
Proof.
  revert id k. induction config as [|[[n s] o] config IH]; intros id k H.
  - destruct k; discriminate H.
  - destruct k as [|k].
    + cbn in H. injection H as -> -> ->. cbn [ad_sets_from Nat.mul Nat.add nth_error].
      replace (id + 2 * Z.of_nat 0)%Z with id by lia. split; reflexivity.
    + cbn [nth_error] in H. destruct (IH (id + 2)%Z k H) as [A B].
      replace (2 * S k)%nat with (S (S (2 * k))) by lia.
      replace (S (S (2 * k)) + 1)%nat with (S (S (2 * k + 1))) by lia.
      cbn [ad_sets_from nth_error].
      replace (id + 2 * Z.of_nat (S k))%Z with (id + 2 + 2 * Z.of_nat k)%Z
        by lia.
      split; assumption.
Qed.

(** X10: the loop that builds dim_campaign, for any configuration: two rows
    per configured campaign, in order, with tiers 1 and 2 and the
    identifiers 1, 2, 3, ... *)
Theorem campaign_loop_rows (config : list (string * string * string)) :
  campaign_rows = campaign_rows_of campaign_config /\
  length (campaign_rows_of config) = (2 * length config)%nat /\
  map campaign_id (campaign_rows_of config) =
    map Z.of_nat (seq 1 (2 * length config)) /\
  NoDup (map campaign_id (campaign_rows_of config)) /\
  (forall k name scope obj,
     nth_error config k = Some (name, scope, obj) ->
     nth_error (campaign_rows_of config) (2 * k) =
       Some (mkDimCampaign (2 * Z.of_nat k + 1) name (name ++ "_Tier1")
                           scope obj) /\
     nth_error (campaign_rows_of config) (2 * k + 1) =
       Some (mkDimCampaign (2 * Z.of_nat k + 2) name (name ++ "_Tier2")
                           scope obj)).
Proof.
  split; [reflexivity | ].
  rewrite (campaign_rows_closed_form config).
  assert (Ids : map campaign_id (ad_sets_from 1 config) =
                map Z.of_nat (seq 1 (2 * length config))).
  { rewrite ad_sets_ids, <- seq_shift, map_map.
    apply map_ext. intro i. lia. }
  split; [apply ad_sets_length | ].
  split; [exact Ids | ]. split.
  - rewrite Ids. apply NoDup_map_injective; [ | apply seq_NoDup].
    intros x y. apply Nat2Z.inj.
  - intros k name scope obj H.
    destruct (ad_sets_nth 1 config k name scope obj H) as [A B].
    replace (2 * Z.of_nat k + 1)%Z with (1 + 2 * Z.of_nat k)%Z by lia.
    replace (2 * Z.of_nat k + 2)%Z with (1 + 2 * Z.of_nat k + 1)%Z by lia.
    split; assumption.
Qed.

(** ** The derived columns of a date *)

Lemma digit_value (n : Z) :
  (Z.of_nat (nat_of_ascii (Calendar.digit n)) - 48 = n mod 10)%Z.
Proof.
  unfold Calendar.digit.
  pose proof (Z.mod_pos_bound n 10 ltac:(lia)) as B.
  rewrite nat_ascii_embedding by lia. lia.
Qed.

Lemma int_of_digits_zero_pad (w : nat) (n : Z) (acc : string) (a : Z) :
  Calendar.int_of_digits (Calendar.zero_pad w n acc) a =
  Calendar.int_of_digits acc
    (a * 10 ^ Z.of_nat w + n mod 10 ^ Z.of_nat w)%Z.
Proof.
  revert n acc a. induction w as [|w IH]; intros n acc a.
  - cbn [Calendar.zero_pad]. f_equal.
    change (10 ^ Z.of_nat 0)%Z with 1%Z. rewrite Z.mod_1_r. lia.
  - cbn [Calendar.zero_pad]. rewrite IH. cbn [Calendar.int_of_digits].
    f_equal. rewrite digit_value, Nat2Z.inj_succ, Z.pow_succ_r by lia.
    assert (P : (0 < 10 ^ Z.of_nat w)%Z) by (apply Z.pow_pos_nonneg; lia).
    rewrite (Z.rem_mul_r n 10 (10 ^ Z.of_nat w)) by lia. lia.
Qed.

Lemma date_key_formula (d : Calendar.datetime) :
  (0 <= Calendar.year d < 10000)%Z -> (0 <= Calendar.month d < 100)%Z ->
  (0 <= Calendar.day d < 100)%Z ->
  Calendar.astype_int (Calendar.strftime_Ymd d) =
  (Calendar.year d * 10000 + Calendar.month d * 100 + Calendar.day d)%Z.
Proof.
  intros Hy Hm Hd. unfold Calendar.astype_int, Calendar.strftime_Ymd.
  rewrite !int_of_digits_zero_pad. cbn [Calendar.int_of_digits].
  change (10 ^ Z.of_nat 4)%Z with 10000%Z.
  change (10 ^ Z.of_nat 2)%Z with 100%Z.
  rewrite !Z.mod_small by lia. lia.
Qed.

Lemma month_cases (m : Z) :
  (1 <= m <= 12)%Z ->
  m = 1%Z \/ m = 2%Z \/ m = 3%Z \/ m = 4%Z \/ m = 5%Z \/ m = 6%Z \/
  m = 7%Z \/ m = 8%Z \/ m = 9%Z \/ m = 10%Z \/ m = 11%Z \/ m = 12%Z.
Proof. lia. Qed.

Lemma days_in_month_range (y m : Z) :
  (1 <= m <= 12)%Z -> (28 <= Calendar.days_in_month y m <= 31)%Z.
Proof.
  intro H. unfold Calendar.days_in_month.
  destruct (month_cases m H) as [-> | [-> | [-> | [-> | [-> | [->
    | [-> | [-> | [-> | [-> | [-> | ->]]]]]]]]]]];
    destruct (Calendar.is_leap y);
    split; apply Z.leb_le; vm_compute; reflexivity.
Qed.

(** X11: the columns derived from a date, for any date that [datetime]
    accepts. *)
Theorem dim_date_row_columns (d : Calendar.datetime) :
  valid_date d ->
  dd_date_key (dim_date_row d) =
    (Calendar.year d * 10000 + Calendar.month d * 100 + Calendar.day d)%Z /\
  dd_year (dim_date_row d) = Calendar.year d /\
  dd_month (dim_date_row d) = Calendar.month d /\
  (1 <= dd_quarter (dim_date_row d) <= 4)%Z /\
  (3 * dd_quarter (dim_date_row d) - 2 <= Calendar.month d
   <= 3 * dd_quarter (dim_date_row d))%Z /\
  String.length (dd_month_name (dim_date_row d)) = 3%nat.
Proof.
  intros (Hy & Hm & Hd).
  pose proof (days_in_month_range (Calendar.year d) _ Hm) as Hdm.
  cbn [dim_date_row dd_date_key dd_year dd_month dd_quarter dd_month_name].
  split; [apply date_key_formula; lia | ].
  split; [reflexivity | ]. split; [reflexivity | ].
  unfold Calendar.quarter, Calendar.strftime_b.
  destruct (month_cases _ Hm) as [-> | [-> | [-> | [-> | [-> | [->
    | [-> | [-> | [-> | [-> | [-> | ->]]]]]]]]]]];
    repeat split; try (apply Z.leb_le); vm_compute; reflexivity.
Qed.

Lemma dim_date_row_columns_witness :
  valid_date (Calendar.mkDate 2024 2 29) /\
  dd_date_key (dim_date_row (Calendar.mkDate 2024 2 29)) = 20240229%Z /\
  dd_quarter (dim_date_row (Calendar.mkDate 2024 2 29)) = 1%Z.
Proof.
  assert (V : valid_date (Calendar.mkDate 2024 2 29))
    by (unfold valid_date; repeat split; apply Z.leb_le; reflexivity).
  split; [exact V | ].
  destruct (dim_date_row_columns _ V) as (K & _ & _ & Q1 & Q2 & _).
  split; [exact K | ]. cbn [Calendar.month] in Q2. lia.
Defined.

(** X12: distinct dates have distinct date keys. *)
Theorem date_key_injective (d1 d2 : Calendar.datetime) :
  valid_date d1 -> valid_date d2 ->
  dd_date_key (dim_date_row d1) = dd_date_key (dim_date_row d2) ->
  d1 = d2.
Proof.
  intros V1 V2 E.
  pose proof V1 as (Hy1 & Hm1 & Hd1). pose proof V2 as (Hy2 & Hm2 & Hd2).
  pose proof (days_in_month_range (Calendar.year d1) _ Hm1).
  pose proof (days_in_month_range (Calendar.year d2) _ Hm2).
  cbn [dim_date_row dd_date_key] in E.
  rewrite !date_key_formula in E by lia.
  destruct d1 as [y1 m1 a1], d2 as [y2 m2 a2]. cbn in *.
  f_equal; lia.
Qed.

Lemma date_key_injective_witness :
  valid_date (Calendar.mkDate 2023 12 31) /\
  valid_date (Calendar.ord2ymd 738885) /\
  Calendar.mkDate 2023 12 31 = Calendar.ord2ymd 738885.
Proof.
  assert (V1 : valid_date (Calendar.mkDate 2023 12 31))
    by (unfold valid_date; repeat split; apply Z.leb_le; reflexivity).
  assert (V2 : valid_date (Calendar.ord2ymd 738885))
    by (unfold valid_date; repeat split; apply Z.leb_le; reflexivity).
  split; [exact V1 | split; [exact V2 | ]].
  apply (date_key_injective _ _ V1 V2). vm_compute. reflexivity.
Defined.

(** ** The weekend flag of any date *)

Lemma leap_year_days (y : Z) :
  (Calendar.days_before_year (y + 1) =
   Calendar.days_before_year y + 365
   + (if Calendar.is_leap y then 1 else 0))%Z.
Proof.
  unfold Calendar.days_before_year, Calendar.is_leap. cbv zeta.
  replace (y + 1 - 1)%Z with y by lia.
  destruct (Z.eqb_spec (y mod 4) 0), (Z.eqb_spec (y mod 100) 0),
    (Z.eqb_spec (y mod 400) 0); cbn [negb andb orb];
    Z.to_euclidean_division_equations; lia.
Qed.

Ltac eval_tables :=
  repeat match goal with
    | |- context [Calendar.tbl ?t ?m] =>
        let v := eval vm_compute in (Calendar.tbl t m) in
        change (Calendar.tbl t m) with v
    | |- context [(Zpos ?a <? Zpos ?b)%Z] =>
        let v := eval vm_compute in (Zpos a <? Zpos b)%Z in
        change (Zpos a <? Zpos b)%Z with v
    end.

Lemma weekday_is_ordinal_mod_7 (d : Calendar.datetime) :
  (1 <= Calendar.month d <= 12)%Z ->
  Calendar.weekday_sun0 d = (Calendar.ymd2ord d mod 7)%Z.
Proof.
  intro Hm. destruct d as [y m a]. cbn [Calendar.month] in Hm.
  unfold Calendar.weekday_sun0, Calendar.ymd2ord, Calendar.days_before_month.
  cbn [Calendar.year Calendar.month Calendar.day]. cbv zeta.
  pose proof (leap_year_days y) as L.
  unfold Calendar.days_before_year in *. cbv zeta in *.
  replace (y + 1 - 1)%Z with y in L by lia.
  destruct (month_cases m Hm) as [-> | [-> | [-> | [-> | [-> | [->
    | [-> | [-> | [-> | [-> | [-> | ->]]]]]]]]]]];
    eval_tables; cbn [andb]; destruct (Calendar.is_leap y);
    Z.to_euclidean_division_equations; lia.
Qed.

(** X13: the weekend flag, for any date of the calendar. *)
Theorem is_weekend_any_date (d : Calendar.datetime) :
  valid_date d ->
  dd_is_weekend (dim_date_row d) = Calendar.is_sat_or_sun d /\
  (Calendar.weekday_sun0 d = (Calendar.dayofweek d + 1) mod 7)%Z.
Proof.
  intros (_ & Hm & _).
  cbn [dim_date_row dd_is_weekend]. unfold Calendar.is_sat_or_sun.
  rewrite (weekday_is_ordinal_mod_7 d Hm). unfold Calendar.dayofweek.
  set (o := Calendar.ymd2ord d). split.
  - destruct (Z.leb_spec 5 ((o + 6) mod 7)),
      (Z.eqb_spec (o mod 7) 6), (Z.eqb_spec (o mod 7) 0);
      cbn [orb]; try reflexivity; exfalso;
      Z.to_euclidean_division_equations; lia.
  - Z.to_euclidean_division_equations; lia.
Qed.

Lemma is_weekend_any_date_witness :
  valid_date (Calendar.mkDate 2000 2 29) /\
  dd_is_weekend (dim_date_row (Calendar.mkDate 2000 2 29)) = false.
Proof.
  assert (V : valid_date (Calendar.mkDate 2000 2 29))
    by (unfold valid_date; repeat split; apply Z.leb_le; reflexivity).
  split; [exact V | ].
  rewrite (proj1 (is_weekend_any_date _ V)). reflexivity.
Defined.

(* ================================================================== *)
(** * Further properties of the enrichment stage *)

(** ** The left merges *)

Section LeftMerge.
Context {A B : Type}.
Variable kl : A -> Z.
Variable kr : B -> Z.

Lemma filter_nil_iff (f : B -> bool) (r : list B) :
  filter f r = [] <-> forall b, In b r -> f b = false.
Proof.
  induction r as [|b r IH]; simpl.
  - split; [intros _ b [] | reflexivity].
  - destruct (f b) eqn:E; split.
    + discriminate.
    + intro H. specialize (H b (or_introl eq_refl)). congruence.
    + intros H b' [<- | Hb']; [exact E | now apply IH].
    + intro H. apply IH. intros b' Hb'. apply H. now right.
Qed.

Lemma merge_left_cons (a : A) (l : list A) (r : list B) :
  Enrichment.merge_left kl kr (a :: l) r =
  match filter (fun b => (kl a =? kr b)%Z) r with
  | [] => [(a, None)]
  | bs => map (fun b => (a, Some b)) bs
  end ++ Enrichment.merge_left kl kr l r.
Proof. reflexivity. Qed.

Lemma in_merge_left_head (a : A) (r : list B) (x : A) (o : option B) :
  In (x, o)
     match filter (fun b => (kl a =? kr b)%Z) r with
     | [] => [(a, None)]
     | bs => map (fun b => (a, Some b)) bs
     end <->
  x = a /\
  match o with
  | Some b => In b r /\ kl a = kr b
  | None => forall b, In b r -> kl a <> kr b
  end.
Proof.
  destruct (filter (fun b => (kl a =? kr b)%Z) r) as [|b0 bs] eqn:F.
  - pose proof (proj1 (filter_nil_iff _ _) F) as N. simpl. split.
    + intros [E | []]. injection E as <- <-. split; [reflexivity | ].
      intros b Hb. specialize (N b Hb). now apply Z.eqb_neq.
    + intros [-> H]. destruct o as [b|]; [ | now left].
      destruct H as [Hb E]. specialize (N b Hb).
      apply Z.eqb_neq in N. contradiction.
  - rewrite <- F. rewrite in_map_iff. split.
    + intros [b [E Hb]]. injection E as <- <-.
      apply filter_In in Hb. destruct Hb as [Hb E].
      apply Z.eqb_eq in E. auto.
    + intros [-> H]. destruct o as [b|].
      * destruct H as [Hb E]. exists b. split; [reflexivity | ].
        apply filter_In. split; [exact Hb | now apply Z.eqb_eq].
      * exfalso. assert (Hb : In b0 (b0 :: bs)) by now left.
        rewrite <- F in Hb. apply filter_In in Hb. destruct Hb as [Hb E].
        apply Z.eqb_eq in E. exact (H b0 Hb E).
Qed.

(** X14: what a left merge contains. *)
Theorem merge_left_rows (l : list A) (r : list B) :
  (forall a o,
     In (a, o) (Enrichment.merge_left kl kr l r) <->
     In a l /\
     match o with
     | Some b => In b r /\ kl a = kr b
     | None => forall b, In b r -> kl a <> kr b
     end) /\
  (length l <= length (Enrichment.merge_left kl kr l r))%nat /\
  Enrichment.merge_left kl kr l [] = map (fun a => (a, None)) l.
Proof.
  split; [ | split].
  - induction l as [|a0 l IH]; intros a o.
    + simpl. tauto.
    + rewrite merge_left_cons, in_app_iff, in_merge_left_head, IH.
      simpl. intuition (subst; auto).
  - induction l as [|a0 l IH]; [simpl; lia | ].
    rewrite merge_left_cons, length_app. cbn [length].
    destruct (filter (fun b => (kl a0 =? kr b)%Z) r); cbn [length map]; lia.
  - induction l as [|a0 l IH]; [reflexivity | ].
    rewrite merge_left_cons, IH. reflexivity.
Qed.

Lemma filter_unique_key (r : list B) (k : Z) :
  NoDup (map kr r) ->
  filter (fun b => (k =? kr b)%Z) r =
  match lookup kr r k with Some b => [b] | None => [] end.
Proof.
  unfold lookup. induction r as [|b r IH]; simpl; intro H; [reflexivity | ].
  inversion H as [|x t Hn Ht]; subst.
  destruct (k =? kr b)%Z eqn:E.
  - f_equal. apply filter_nil_iff. intros b' Hb'.
    apply Z.eqb_neq. apply Z.eqb_eq in E. intro E'.
    apply Hn. rewrite <- E, E'. now apply in_map.
  - now apply IH.
Qed.

(** With unique keys on the right, a left merge looks each left row up. *)
Lemma merge_left_lookup (l : list A) (r : list B) :
  NoDup (map kr r) ->
  Enrichment.merge_left kl kr l r =
  map (fun a => (a, lookup kr r (kl a))) l.
Proof.
  intro H. induction l as [|a l IH]; [reflexivity | ].
  rewrite merge_left_cons, IH, (filter_unique_key r (kl a) H).
  cbn [map]. destruct (lookup kr r (kl a)); reflexivity.
Qed.

(** X15: with unique keys on the right, a left merge keeps the left rows as
    they are, one row each, and attaches the row found under the key. *)
Theorem merge_left_unique_keys (l : list A) (r : list B) :
  NoDup (map kr r) ->
  Enrichment.merge_left kl kr l r =
    map (fun a => (a, lookup kr r (kl a))) l /\
  map fst (Enrichment.merge_left kl kr l r) = l /\
  length (Enrichment.merge_left kl kr l r) = length l.
Proof.
  intro H. rewrite (merge_left_lookup l r H).
  split; [reflexivity | ]. split.
  - rewrite map_map. cbn [fst]. apply map_id.
  - apply length_map.
Qed.
End LeftMerge.

Lemma merge_left_unique_keys_witness :
  NoDup (map fst small_right) /\
  Enrichment.merge_left fst fst small_left small_right =
    [ ((1%Z, "a"%string), Some (1%Z, "one"%string));
      ((2%Z, "b"%string), Some (2%Z, "two"%string));
      ((9%Z, "c"%string), None);
      ((1%Z, "d"%string), Some (1%Z, "one"%string)) ].
Proof.
  assert (H : NoDup (map fst small_right)).
  { apply nodupb_NoDup. reflexivity. }
  split; [exact H | ].
  rewrite (proj1 (merge_left_unique_keys fst fst small_left small_right H)).
  reflexivity.
Defined.

(** ** From the generator to the master frame *)

Lemma lookup_present {B} (kr : B -> Z) (r : list B) (k : Z) :
  In k (map kr r) ->
  exists b, lookup kr r k = Some b /\ kr b = k /\ In b r.
Proof.
  intro H. unfold lookup.
  destruct (find (fun b => (k =? kr b)%Z) r) as [b|] eqn:F.
  - apply find_some in F. destruct F as [Hb E]. apply Z.eqb_eq in E.
    exists b. auto.
  - apply in_map_iff in H. destruct H as [b [E Hb]].
    pose proof (find_none _ _ F b Hb) as N. cbv beta in N.
    apply Z.eqb_neq in N. congruence.
Qed.

Lemma exported_campaign_ids (l : list DimCampaign) :
  map cf_campaign_id (map drop_channel_scope l) = map campaign_id l.
Proof. rewrite map_map. reflexivity. Qed.

Lemma generates_keys_present (g : Rng) :
  generates g (fun out =>
    Forall (fun f =>
              In (f_campaign_id f) (map campaign_id dim_campaign) /\
              In (f_source_id f) (map source_id dim_source) /\
              In (f_date_key f) (map dd_date_key dim_date))
           (out_fact out)).
Proof.
  apply generates_skeleton. intros s Hs a b c d e.
  cbn [f_campaign_id f_source_id f_date_key].
  destruct (skeleton_row s Hs) as (Hc & Hsrc & _ & dd & Hd & Ed).
  split; [exact (in_map campaign_id _ _ Hc) | ].
  split; [exact (in_map source_id _ _ Hsrc) | ].
  unfold sk_date_key. rewrite Ed. exact (in_map dd_date_key _ _ Hd).
Qed.

(** The master frame of the generated tables: each fact row, with the rows
    of the three dimensions looked up under its keys. *)
Lemma generates_master (g : Rng) :
  generates g (fun out =>
    master_of (export out) =
    map (fun f =>
           (f,
            lookup cf_campaign_id (map drop_channel_scope dim_campaign)
                   (f_campaign_id f),
            lookup source_id dim_source (f_source_id f),
            lookup dd_date_key dim_date (f_date_key f)))
        (out_fact out)).
Proof.
  eapply generates_impl; [apply generates_tables | ].
  intros out (E1 & E2 & E3 & _).
  destruct dimension_keys_unique as (Nc & Ns & Nd).
  unfold master_of, export, Enrichment.df_master.
  cbn [csv_dim_date csv_dim_source csv_dim_campaign csv_fact_performance].
  rewrite E1, E2, E3.
  rewrite (merge_left_lookup f_campaign_id cf_campaign_id)
    by (rewrite exported_campaign_ids; exact Nc).
  rewrite (merge_left_lookup _ source_id) by exact Ns.
  rewrite (merge_left_lookup _ dd_date_key) by exact Nd.
  rewrite !map_map. reflexivity.
Qed.

(** X16: the enrichment stage on the generator's files: the master frame
    has the fact rows, in their order and once each, and every row carries
    the campaign, the source and the date that its keys name; no
    dimension attribute is missing. *)
Theorem master_of_generated (g : Rng) :
  generates g (fun out =>
    map Enrichment.m_fact (master_of (export out)) = out_fact out /\
    length (master_of (export out)) = length (out_fact out) /\
    Forall (fun row =>
              exists c s d,
                row = (Enrichment.m_fact row, Some c, Some s, Some d) /\
                cf_campaign_id c = f_campaign_id (Enrichment.m_fact row) /\
                source_id s = f_source_id (Enrichment.m_fact row) /\
                dd_date_key d = f_date_key (Enrichment.m_fact row) /\
                In c (csv_dim_campaign (export out)) /\
                In s (csv_dim_source (export out)) /\
                In d (csv_dim_date (export out)))
           (master_of (export out))).
Proof.
  eapply generates_impl.
  - apply generates_and; [apply generates_tables | ].
    apply generates_and; [apply generates_master | ].
    apply generates_keys_present.
  - intros out ((E1 & E2 & E3 & _) & EM & HK). cbv beta in EM, HK.
    rewrite EM. split; [ | split].
    + rewrite map_map. unfold Enrichment.m_fact. cbn [fst]. apply map_id.
    + apply length_map.
    + apply Forall_map. eapply Forall_impl; [ | exact HK].
      intros f (Hc & Hs & Hd). unfold Enrichment.m_fact. cbn [fst].
      rewrite <- exported_campaign_ids in Hc.
      destruct (lookup_present _ _ _ Hc) as (c & Lc & Kc & Ic).
      destruct (lookup_present _ _ _ Hs) as (s & Ls & Ks & Is).
      destruct (lookup_present _ _ _ Hd) as (d & Ld & Kd & Id).
      exists c, s, d. rewrite Lc, Ls, Ld.
      unfold export. cbn [csv_dim_date csv_dim_source csv_dim_campaign].
      rewrite E1, E2, E3. repeat split; assumption.
Qed.

(** ** Bounds on the KPIs *)

Lemma guarded_ratio_between (num den : Z) (c hi : Q) :
  (0 <= num)%Z -> 0 <= c -> 0 <= hi ->
  inject_Z num * c <= hi * inject_Z den ->
  kpi_between 0 hi
    (Enrichment.guarded den (inject_Z num / inject_Z den * c)).
Proof.
  intros Hn Hc Hh H. unfold Enrichment.guarded.
  destruct (0 <? den)%Z eqn:E.
  - apply Z.ltb_lt in E.
    assert (Hd : 0 < inject_Z den)
      by (change 0 with (inject_Z 0); now rewrite <- Zlt_Qlt).
    pose proof (inject_Z_nonneg _ Hn) as Hn'.
    eexists. split; [reflexivity | ].
    assert (Eq : inject_Z num / inject_Z den * c
                 == inject_Z num * c / inject_Z den)
      by (field; intro Z0; rewrite Z0 in Hd; now apply Qlt_irrefl in Hd).
    rewrite Eq. split.
    + apply Qle_shift_div_l; [exact Hd | ]. nra.
    + apply Qle_shift_div_r; [exact Hd | exact H].
  - exists 0. split; [reflexivity | split; [apply Qle_refl | exact Hh]].
Qed.





(** ** The KPIs of the generated data *)

Lemma generates_fact_bounds (g : Rng) :
  unit_samples g ->
  generates g (fun out =>
    Forall (fun f =>
              (210 <= f_impressions f)%Z /\
              (10 <= f_clicks f)%Z /\
              (100 * f_clicks f <= 12 * f_impressions f)%Z /\
              (0 <= f_conversions f)%Z /\
              (100 * f_conversions f <= 15 * f_clicks f)%Z)
           (out_fact out)).
Proof.
  intro Hg. apply (generates_fact_rows_in unit_interval); [exact Hg | ].
  intros r Hin S.
  cbn [fact_of_row f_impressions f_clicks f_conversions].
  pose proof (skeleton_known_channel _ Hin) as K.
  destruct (row_impressions_global r S K) as [I _].
  destruct (row_clicks_tight r S K) as [C1 C2].
  destruct (row_conversions_tight r S) as (V0 & V1 & _).
  repeat split; assumption.
Qed.

Lemma Z_scaled_Qle (a b c d : Z) :
  (a * c <= b * d)%Z -> inject_Z c * inject_Z a <= inject_Z b * inject_Z d.
Proof.
  intro H. rewrite <- !inject_Z_mult, <- Zle_Qle. lia.
Qed.

(** X18: on the generator's files, no KPI falls back to 0: impressions and
    clicks are positive in every row, so each KPI is its quotient; CTR is at
    most 12 (percent) and Conversion_Rate at most 15. *)
Theorem generated_kpis (g : Rng) :
  unit_samples g ->
  generates g (fun out =>
    Enrichment.CPM (master_of (export out)) =
      map (fun f => Enrichment.Num
                      (f_spend f / inject_Z (f_impressions f) * 1000))
          (out_fact out) /\
    Enrichment.CTR (master_of (export out)) =
      map (fun f => Enrichment.Num
                      (inject_Z (f_clicks f) / inject_Z (f_impressions f)
                       * 100))
          (out_fact out) /\
    Enrichment.CPC (master_of (export out)) =
      map (fun f => Enrichment.Num (f_spend f / inject_Z (f_clicks f)))
          (out_fact out) /\
    Enrichment.Conversion_Rate (master_of (export out)) =
      map (fun f => Enrichment.Num
                      (inject_Z (f_conversions f) / inject_Z (f_clicks f)
                       * 100))
          (out_fact out) /\
    Forall (kpi_between 0 12) (Enrichment.CTR (master_of (export out))) /\
    Forall (kpi_between 0 15)
           (Enrichment.Conversion_Rate (master_of (export out)))).
Proof.
  intro Hg. eapply generates_impl.
  - apply generates_and; [apply generates_master | ].
    apply (generates_fact_bounds g Hg).
  - intros out [EM HB]. cbv beta in EM, HB.
    rewrite EnrichmentFacts.CPM_rows, EnrichmentFacts.CTR_rows,
      EnrichmentFacts.CPC_rows, EnrichmentFacts.Conversion_Rate_rows.
    rewrite EM, !map_map. unfold Enrichment.m_fact. cbn [fst].
    unfold Enrichment.cpm_of, Enrichment.ctr_of, Enrichment.cpc_of,
      Enrichment.conversion_rate_of.
    split; [ | split; [ | split; [ | split; [ | split]]]].
    + apply map_ext_Forall. eapply Forall_impl; [ | exact HB].
      intros f (I & _). apply EnrichmentFacts.guarded_pos. lia.
    + apply map_ext_Forall. eapply Forall_impl; [ | exact HB].
      intros f (I & _). apply EnrichmentFacts.guarded_pos. lia.
    + apply map_ext_Forall. eapply Forall_impl; [ | exact HB].
      intros f (_ & C & _). apply EnrichmentFacts.guarded_pos. lia.
    + apply map_ext_Forall. eapply Forall_impl; [ | exact HB].
      intros f (_ & C & _). apply EnrichmentFacts.guarded_pos. lia.
    + apply Forall_map. eapply Forall_impl; [ | exact HB].
      intros f (I & C & CI & _).
      apply guarded_ratio_between; try lra; [lia | ].
      change 100 with (inject_Z 100). change 12 with (inject_Z 12).
      rewrite (Qmult_comm (inject_Z (f_clicks f))).
      apply Z_scaled_Qle. lia.
    + apply Forall_map. eapply Forall_impl; [ | exact HB].
      intros f (_ & C & _ & V0 & VC).
      apply guarded_ratio_between; try lra; [lia | ].
      change 100 with (inject_Z 100). change 15 with (inject_Z 15).
      rewrite (Qmult_comm (inject_Z (f_conversions f))).
      apply Z_scaled_Qle. lia.
Qed.

Lemma generated_kpis_witness :
  unit_samples rng_half /\
  generates rng_half (fun out =>
    Forall (kpi_between 0 12) (Enrichment.CTR (master_of (export out)))).
Proof.
  split; [exact unit_samples_half | ].
  eapply generates_impl;
    [exact (generated_kpis rng_half unit_samples_half) | ].
  intros out H. exact (proj1 (proj2 (proj2 (proj2 (proj2 H))))).
Defined.

(* ================================================================== *)
(** * Step C on any skeleton *)

Lemma trunc_zero_times (x : Q) : trunc (inject_Z 0 * x) = 0%Z.
Proof.
  destruct x as [n d]. unfold trunc, inject_Z, Qmult. cbn [Qnum Qden].
  rewrite Z.mul_0_l. apply Z.quot_0_l. lia.
Qed.

Lemma by_channel_unknown (P1 P2 P3 P4 : Q -> Prop) (s : Skel) (x : Q) :
  ~ known_channel (sk_channel s) -> by_channel P1 P2 P3 P4 s x -> x = 0.
Proof.
  unfold known_channel, by_channel. intros N H.
  destruct (is_channel "Organic" s) eqn:E4;
    [apply is_channel_true in E4; tauto | ].
  destruct (is_channel "Paid Social" s) eqn:E3;
    [apply is_channel_true in E3; tauto | ].
  destruct (is_channel "Paid Search" s) eqn:E2;
    [apply is_channel_true in E2; tauto | ].
  destruct (is_channel "Programmatic" s) eqn:E1;
    [apply is_channel_true in E1; tauto | exact H].
Qed.

Lemma row_unknown_channel (U : Q -> Prop) (r : Row) :
  row_spec U r -> ~ known_channel (r_channel r) ->
  r_impressions r = 0%Z /\ r_clicks r = 0%Z /\ r_spend r == 0 /\
  r_conversions r = 0%Z /\ r_video_views r = 0%Z.
Proof.
  intros S N. unfold r_channel in N.
  pose proof (by_channel_unknown _ _ _ _ _ _ N (rs_base _ _ S)) as Eb.
  assert (Ei : r_impressions r = 0%Z).
  { rewrite (rs_impressions _ _ S), (rs_final _ _ S).
    rewrite not_spike_off_programmatic
      by (intro E; apply N; left; exact E).
    rewrite (rs_seasonal _ _ S), (rs_seasonality _ _ S), Eb.
    destruct (sk_is_weekend (r_skel r)); reflexivity. }
  assert (Ec : r_clicks r = 0%Z)
    by (rewrite (rs_clicks _ _ S), Ei; apply trunc_zero_times).
  split; [exact Ei | ]. split; [exact Ec | ]. split; [ | split].
  - rewrite (rs_spend _ _ S), Ec. apply round2_zero. ring.
  - rewrite (rs_conversions _ _ S), Ec. apply trunc_zero_times.
  - pose proof (rs_video _ _ S) as H. unfold video_spec in H.
    destruct (channel_isin _ _) eqn:E; [ | exact H].
    apply channel_isin_slice in E. exfalso. apply N.
    unfold video_slice, r_channel in E. unfold known_channel. tauto.
Qed.

(** X19: Step C on any skeleton, for any state of the random generator:
    the masked assignments never meet a size mismatch, every array gets one
    entry per row, and a row whose channel is none of the four keeps
    all-zero metrics. *)
Theorem metric_logic_any_skeleton (df : list Skel) (g : Rng) :
  wp (metric_logic df)
     (fun m _ =>
        full_columns (length df) m /\
        length (rows_of df m) = length df /\
        Forall (fun r =>
                  ~ known_channel (r_channel r) ->
                  r_impressions r = 0%Z /\ r_clicks r = 0%Z /\
                  r_spend r == 0 /\ r_conversions r = 0%Z /\
                  r_video_views r = 0%Z)
               (rows_of df m))
     g.
Proof.
  eapply wp_impl;
    [apply (metric_logic_spec any_sample df g), any_samples | ].
  intros m g' [F H]. split; [exact F | ]. split.
  - unfold rows_of. now rewrite length_map, length_seq.
  - apply Forall_rows_of. intros i Hi.
    apply (row_unknown_channel any_sample). now apply H.
Qed.

Example metric_logic_email_row :
  match metric_logic email_skeleton rng_half with
  | Some (m, _) =>
      impressions m = [0%Z] /\ clicks m = [0%Z] /\
      conversions m = [0%Z] /\ video_views m = [0%Z] /\
      Forall (Qeq 0) (spend m)
  | None => False
  end.
Proof.
  vm_compute. repeat split. constructor; [reflexivity | constructor].
Qed.

Example metric_logic_empty_skeleton :
  option_map (fun x => fact_final [] (fst x)) (metric_logic [] rng_half) =
  Some [].
Proof. reflexivity. Qed.
